(** * A shallow embedding of the to-do list of [src/App.tsx]

    The React component [App] keeps three pieces of state (the text of the
    input field, the task list and the id of the task being edited) and
    mirrors the task list to one AsyncStorage slot as JSON text.  This file
    embeds the state, the five handlers of the component and the JSON
    text format the slot holds, and proves the properties the specification
    states about them.

    Conventions.
    - A JavaScript string is the list of its UTF-16 code units ([jsstring]).
    - [Date.now()] is an input of the handler that reads it: the handler
      takes the clock reading (integral milliseconds) as an argument.
    - A handler returns the next state together with the argument of the
      [saveTasks] call it issues, if any (the call is never awaited).
    - A JavaScript exception is a result [None]; [try]/[catch] is a match.
    - Gestures are handled one after the other: a handler sees the state
      the previous one left (React renders between two discrete events). *)

From Stdlib Require Import ZArith NArith List String Ascii Bool Lia.
From Stdlib Require Import DecimalString DecimalZ.
Import ListNotations.

Set Implicit Arguments.
Set Warnings "-register-all".

(* ================================================================== *)
(** ** JavaScript strings *)

Module JsString.

#[local] Open Scope N_scope.

(** A UTF-16 code unit. *)
Definition code_unit := N.

(** A JavaScript string value. *)
Definition jsstring := list code_unit.

(** A string literal of ASCII characters as a JavaScript string. *)
Definition js (s : string) : jsstring :=
  List.map N_of_ascii (list_ascii_of_string s).

(** [a === b] on strings: the same sequence of code units. *)
Definition str_eq_dec : forall a b : jsstring, {a = b} + {a <> b} :=
  list_eq_dec N.eq_dec.

(** ToBoolean of a string: every string but the empty one is truthy. *)
Definition truthy (s : jsstring) : bool :=
  match s with
  | [] => false
  | _ :: _ => true
  end.

(** ECMAScript WhiteSpace and LineTerminator code points, the set
    [String.prototype.trim] strips: TAB, LF, VT, FF, CR, SP, NBSP,
    U+1680, U+2000..U+200A, LS, PS, U+202F, U+205F, U+3000 and the BOM. *)
Definition is_white_space (c : code_unit) : bool :=
  (c =? 9) || (c =? 10) || (c =? 11) || (c =? 12) || (c =? 13)
  || (c =? 32) || (c =? 160) || (c =? 5760)
  || ((8192 <=? c) && (c <=? 8202))
  || (c =? 8232) || (c =? 8233) || (c =? 8239) || (c =? 8287)
  || (c =? 12288) || (c =? 65279).

Fixpoint trimStart (s : jsstring) : jsstring :=
  match s with
  | [] => []
  | c :: rest => if is_white_space c then trimStart rest else s
  end.

Definition trimEnd (s : jsstring) : jsstring :=
  rev (trimStart (rev s)).

(** [s.trim()] *)
Definition trim (s : jsstring) : jsstring :=
  trimEnd (trimStart s).

(** [n.toString()] for an integral number below 1e21 in absolute value
    (every time value of [Date] is): its decimal digits, with a leading
    minus sign when negative. *)
Definition toString (n : Z) : jsstring :=
  js (NilEmpty.string_of_int (Z.to_int n)).

End JsString.

Import JsString.

(* ================================================================== *)
(** ** The task list and the component state *)

(** [interface Task] (lines 8-12). *)
Record Task : Type := mkTask {
  id : jsstring;
  text : jsstring;
  completed : bool
}.

(** The three [useState] cells of [App] (lines 15-17). *)
Record AppState : Type := mkApp {
  task : jsstring;
  tasks : list Task;
  taskBeingEdited : option jsstring
}.

(** The state the component mounts with. *)
Definition initial : AppState :=
  {| task := []; tasks := []; taskBeingEdited := None |}.

(** [onChangeText={(text) => setTask(text)}] (line 109). *)
Definition setTask (input : jsstring) (s : AppState) : AppState :=
  {| task := input; tasks := tasks s; taskBeingEdited := taskBeingEdited s |}.

(** ** The list each handler computes (its local [updatedTasks]) *)

(** Lines 51-53:
    [tasks.map(item => item.id === taskBeingEdited ? {...item, text: task} : item)]. *)
Definition updatedTasks_edit (target input : jsstring) (l : list Task) : list Task :=
  List.map
    (fun item =>
       if str_eq_dec (id item) target
       then {| id := id item; text := input; completed := completed item |}
       else item)
    l.

(** Lines 60-61:
    [[...tasks, { id: Date.now().toString(), text: task, completed: false }]]. *)
Definition updatedTasks_add (now : Z) (input : jsstring) (l : list Task) : list Task :=
  l ++ [ {| id := toString now; text := input; completed := false |} ].

(** Line 78: [tasks.filter(item => item.id !== taskId)]. *)
Definition updatedTasks_delete (taskId : jsstring) (l : list Task) : list Task :=
  List.filter (fun item => if str_eq_dec (id item) taskId then false else true) l.

(** Lines 85-87:
    [tasks.map(item => item.id === taskId ? {...item, completed: !item.completed} : item)]. *)
Definition updatedTasks_toggle (taskId : jsstring) (l : list Task) : list Task :=
  List.map
    (fun item =>
       if str_eq_dec (id item) taskId
       then {| id := id item; text := text item; completed := negb (completed item) |}
       else item)
    l.

(** ** The handlers *)

(** What a handler leaves behind: the next state and the list handed to
    [saveTasks], when the handler calls it. *)
Definition outcome : Type := (AppState * option (list Task))%type.

(** The edit in progress, as [if (taskBeingEdited)] sees it (line 50): the
    test is JavaScript truthiness, so the cell holds an edit target when
    it is neither [null] nor the empty string. *)
Definition edit_target (s : AppState) : option jsstring :=
  match taskBeingEdited s with
  | Some (c :: rest) => Some (c :: rest)
  | Some [] => None
  | None => None
  end.

(** [addOrUpdateTask] (lines 48-74).  [task.trim()] is truthy when it is
    not the empty string. *)
Definition addOrUpdateTask (now : Z) (s : AppState) : outcome :=
  if truthy (trim (task s)) then
    match edit_target s with
    | Some target =>
        let updatedTasks := updatedTasks_edit target (task s) (tasks s) in
        ({| task := []; tasks := updatedTasks; taskBeingEdited := None |},
         Some updatedTasks)
    | None =>
        let updatedTasks := updatedTasks_add now (task s) (tasks s) in
        ({| task := []; tasks := updatedTasks;
            taskBeingEdited := taskBeingEdited s |},
         Some updatedTasks)
    end
  else (s, None).

(** [deleteTask] (lines 77-81). *)
Definition deleteTask (taskId : jsstring) (s : AppState) : outcome :=
  let updatedTasks := updatedTasks_delete taskId (tasks s) in
  ({| task := task s; tasks := updatedTasks;
      taskBeingEdited := taskBeingEdited s |},
   Some updatedTasks).

(** [toggleTaskCompletion] (lines 84-90). *)
Definition toggleTaskCompletion (taskId : jsstring) (s : AppState) : outcome :=
  let updatedTasks := updatedTasks_toggle taskId (tasks s) in
  ({| task := task s; tasks := updatedTasks;
      taskBeingEdited := taskBeingEdited s |},
   Some updatedTasks).

(** [startEditingTask] (lines 93-99): [find] returns the first task with
    the id, an object (always truthy), or [undefined]. *)
Definition startEditingTask (taskId : jsstring) (s : AppState) : AppState :=
  match List.find (fun item => if str_eq_dec (id item) taskId then true else false)
                  (tasks s) with
  | Some taskToEdit =>
      {| task := text taskToEdit; tasks := tasks s;
         taskBeingEdited := Some taskId |}
  | None => s
  end.

(** ** User gestures *)

(** What the user can do on the screen: type in the input field, press the
    add/confirm button (the handler reads the clock), and press a row's
    checkbox, Edit or X. *)
Inductive event : Type :=
| OnChangeText (input : jsstring)
| PressAdd (now : Z)
| PressToggle (taskId : jsstring)
| PressEdit (taskId : jsstring)
| PressDelete (taskId : jsstring).

Definition step (s : AppState) (e : event) : AppState :=
  match e with
  | OnChangeText input => setTask input s
  | PressAdd now => fst (addOrUpdateTask now s)
  | PressToggle taskId => fst (toggleTaskCompletion taskId s)
  | PressEdit taskId => startEditingTask taskId s
  | PressDelete taskId => fst (deleteTask taskId s)
  end.

Definition run (evs : list event) (s : AppState) : AppState :=
  List.fold_left step evs s.

(** The specification's operations, as the gestures that perform them. *)
Definition add (now : Z) (input : jsstring) : list event :=
  [OnChangeText input; PressAdd now].

Definition beginEdit (taskId : jsstring) : list event :=
  [PressEdit taskId].

Definition toggleCompletion (taskId : jsstring) : list event :=
  [PressToggle taskId].

Definition delete (taskId : jsstring) : list event :=
  [PressDelete taskId].

(** The clock readings of the presses of the add button in a run. *)
Fixpoint clock_readings (evs : list event) : list Z :=
  match evs with
  | [] => []
  | PressAdd now :: rest => now :: clock_readings rest
  | _ :: rest => clock_readings rest
  end.

(* ================================================================== *)
(** ** JSON text: what [JSON.stringify] writes and [JSON.parse] reads *)

Module JSON.

#[local] Open Scope N_scope.

(** A value [JSON.parse] can return.  A number keeps the text it was
    written with (its value as a double is not interpreted here; no task
    field is a number).  An object lists its own properties in
    enumeration order. *)
Inductive json : Type :=
| JNull
| JBool (b : bool)
| JNum (lexeme : jsstring)
| JStr (s : jsstring)
| JArr (items : list json)
| JObj (members : list (jsstring * json)).

(** *** Writing *)

Definition is_lead_surrogate (c : code_unit) : bool :=
  (55296 <=? c) && (c <=? 56319).

Definition is_trail_surrogate (c : code_unit) : bool :=
  (56320 <=? c) && (c <=? 57343).

(** One lowercase hexadecimal digit. *)
Definition hex_digit (d : N) : code_unit :=
  if d <? 10 then 48 + d else 87 + d.

(** UnicodeEscape: a backslash, [u] and four lowercase hexadecimal digits. *)
Definition UnicodeEscape (c : code_unit) : jsstring :=
  [92; 117; hex_digit (c / 4096 mod 16); hex_digit (c / 256 mod 16);
   hex_digit (c / 16 mod 16); hex_digit (c mod 16)].

(** How QuoteJSONString writes a code unit that is not half of a
    well-formed surrogate pair: the short escapes for backspace, tab, line
    feed, form feed, carriage return, the double quote and the backslash;
    a Unicode escape for the other control characters and for a lone
    surrogate; the code unit itself otherwise. *)
Definition escape_unit (c : code_unit) : jsstring :=
  if c =? 8 then [92; 98]
  else if c =? 9 then [92; 116]
  else if c =? 10 then [92; 110]
  else if c =? 12 then [92; 102]
  else if c =? 13 then [92; 114]
  else if c =? 34 then [92; 34]
  else if c =? 92 then [92; 92]
  else if (c <? 32) || is_lead_surrogate c || is_trail_surrogate c
       then UnicodeEscape c
  else [c].

(** The characters QuoteJSONString writes between the quotes.  A lead
    surrogate followed by a trail surrogate is one code point and is
    written as it is; [after_lead] says that the previous code unit was
    the lead of such a pair. *)
Fixpoint quote_units (after_lead : bool) (s : jsstring) : jsstring :=
  match s with
  | [] => []
  | c :: rest =>
      let lead :=
        is_lead_surrogate c
        && match rest with d :: _ => is_trail_surrogate d | [] => false end in
      let trail := is_trail_surrogate c && after_lead in
      (if lead || trail then [c] else escape_unit c) ++ quote_units lead rest
  end.

Definition QuoteJSONString (s : jsstring) : jsstring :=
  34 :: quote_units false s ++ [34].

(** SerializeJSONObject of a task: its three own properties in creation
    order, no white space (no indent argument is given). *)
Definition stringify_task (t : Task) : jsstring :=
  js "{" ++ QuoteJSONString (js "id") ++ js ":" ++ QuoteJSONString (id t)
  ++ js "," ++ QuoteJSONString (js "text") ++ js ":" ++ QuoteJSONString (text t)
  ++ js "," ++ QuoteJSONString (js "completed") ++ js ":"
  ++ (if completed t then js "true" else js "false")
  ++ js "}".

(** The elements of an array, separated by commas. *)
Fixpoint stringify_elements (l : list Task) : jsstring :=
  match l with
  | [] => []
  | [t] => stringify_task t
  | t :: rest => stringify_task t ++ js "," ++ stringify_elements rest
  end.

(** [JSON.stringify(updatedTasks)] for [updatedTasks : Task[]]. *)
Definition stringify (l : list Task) : jsstring :=
  js "[" ++ stringify_elements l ++ js "]".

(** *** Reading *)

(** JSON white space: tab, line feed, carriage return, space. *)
Definition is_json_ws (c : code_unit) : bool :=
  (c =? 9) || (c =? 10) || (c =? 13) || (c =? 32).

Fixpoint skip_ws (s : jsstring) : jsstring :=
  match s with
  | [] => []
  | c :: rest => if is_json_ws c then skip_ws rest else s
  end.

Definition is_digit (c : code_unit) : bool := (48 <=? c) && (c <=? 57).

(** The value of a hexadecimal digit of either case. *)
Definition hex_value (c : code_unit) : option N :=
  if is_digit c then Some (c - 48)
  else if (97 <=? c) && (c <=? 102) then Some (c - 87)
  else if (65 <=? c) && (c <=? 70) then Some (c - 55)
  else None.

Definition hex4 (a b c d : code_unit) : option code_unit :=
  match hex_value a, hex_value b, hex_value c, hex_value d with
  | Some x, Some y, Some z, Some w => Some (4096 * x + 256 * y + 16 * z + w)
  | _, _, _, _ => None
  end.

(** The character a one-letter escape stands for. *)
Definition simple_escape (e : code_unit) : option code_unit :=
  if e =? 34 then Some 34
  else if e =? 47 then Some 47
  else if e =? 92 then Some 92
  else if e =? 98 then Some 8
  else if e =? 102 then Some 12
  else if e =? 110 then Some 10
  else if e =? 114 then Some 13
  else if e =? 116 then Some 9
  else None.

Definition cons_unit (c : code_unit) (r : option (jsstring * jsstring))
  : option (jsstring * jsstring) :=
  match r with
  | Some (str, rest) => Some (c :: str, rest)
  | None => None
  end.

(** A JSON string after its opening quote: the string value and the text
    after the closing quote.  A control character below U+0020 must be
    escaped. *)
Fixpoint parse_string_chars (s : jsstring) : option (jsstring * jsstring) :=
  match s with
  | [] => None
  | c :: rest =>
      if c =? 34 then Some ([], rest)
      else if c =? 92 then
        match rest with
        | [] => None
        | e :: rest1 =>
            if e =? 117 then
              match rest1 with
              | h1 :: h2 :: h3 :: h4 :: rest2 =>
                  match hex4 h1 h2 h3 h4 with
                  | Some u => cons_unit u (parse_string_chars rest2)
                  | None => None
                  end
              | _ => None
              end
            else
              match simple_escape e with
              | Some u => cons_unit u (parse_string_chars rest1)
              | None => None
              end
        end
      else if c <? 32 then None
      else cons_unit c (parse_string_chars rest)
  end.

(** The longest prefix of decimal digits, and the rest. *)
Fixpoint take_digits (s : jsstring) : jsstring * jsstring :=
  match s with
  | c :: rest =>
      if is_digit c
      then let (ds, r) := take_digits rest in (c :: ds, r)
      else ([], s)
  | [] => ([], [])
  end.

(** DecimalIntegerLiteral: [0], or a digit other than zero and more digits. *)
Definition parse_int_part (s : jsstring) : option (jsstring * jsstring) :=
  match s with
  | c :: rest =>
      if c =? 48 then Some ([c], rest)
      else if is_digit c
           then let (ds, r) := take_digits rest in Some (c :: ds, r)
           else None
  | [] => None
  end.

(** JSONFraction, optional: a dot and at least one digit. *)
Definition parse_fraction (s : jsstring) : option (jsstring * jsstring) :=
  match s with
  | c :: rest =>
      if c =? 46 then
        match take_digits rest with
        | ([], _) => None
        | (ds, r) => Some (c :: ds, r)
        end
      else Some ([], s)
  | [] => Some ([], [])
  end.

(** ExponentPart, optional: [e] or [E], an optional sign, at least one digit. *)
Definition parse_exponent (s : jsstring) : option (jsstring * jsstring) :=
  match s with
  | c :: rest =>
      if (c =? 101) || (c =? 69) then
        let (sign, rest1) :=
          match rest with
          | g :: rest' =>
              if (g =? 43) || (g =? 45) then ([g], rest') else ([], rest)
          | [] => ([], rest)
          end in
        match take_digits rest1 with
        | ([], _) => None
        | (ds, r) => Some (c :: sign ++ ds, r)
        end
      else Some ([], s)
  | [] => Some ([], [])
  end.

(** JSONNumber: the text of the number and the rest. *)
Definition parse_number (s : jsstring) : option (jsstring * jsstring) :=
  let (sign, s1) :=
    match s with
    | c :: rest => if c =? 45 then ([c], rest) else ([], s)
    | [] => ([], s)
    end in
  match parse_int_part s1 with
  | None => None
  | Some (i, s2) =>
      match parse_fraction s2 with
      | None => None
      | Some (f, s3) =>
          match parse_exponent s3 with
          | None => None
          | Some (e, s4) => Some (sign ++ i ++ f ++ e, s4)
          end
      end
  end.

(** [s] without the prefix [p], when it starts with it. *)
Fixpoint strip_prefix (p s : jsstring) : option jsstring :=
  match p, s with
  | [], _ => Some s
  | a :: p', b :: s' => if a =? b then strip_prefix p' s' else None
  | _ :: _, [] => None
  end.

(** *** Own properties of a parsed object *)

(** The value of a string of decimal digits. *)
Fixpoint digits_value (acc : N) (s : jsstring) : option N :=
  match s with
  | [] => Some acc
  | c :: rest =>
      if is_digit c then digits_value (10 * acc + (c - 48)) rest else None
  end.

(** An array index: the canonical decimal text of an integer below
    [2^32 - 1].  Such keys are enumerated first, in ascending order. *)
Definition array_index (k : jsstring) : option N :=
  match k with
  | [] => None
  | c :: rest =>
      if (c =? 48) && negb (match rest with [] => true | _ => false end)
      then None
      else match digits_value 0 k with
           | Some n => if n <? 4294967295 then Some n else None
           | None => None
           end
  end.

Definition has_key (k : jsstring) (o : list (jsstring * json)) : bool :=
  existsb (fun kv => if str_eq_dec (fst kv) k then true else false) o.

Definition replace_key (k : jsstring) (v : json) (o : list (jsstring * json))
  : list (jsstring * json) :=
  List.map (fun kv => if str_eq_dec (fst kv) k then (k, v) else kv) o.

Fixpoint insert_index (n : N) (k : jsstring) (v : json)
  (o : list (jsstring * json)) : list (jsstring * json) :=
  match o with
  | [] => [(k, v)]
  | kv :: rest =>
      match array_index (fst kv) with
      | Some m => if m <? n then kv :: insert_index n k v rest else (k, v) :: o
      | None => (k, v) :: o
      end
  end.

(** CreateDataProperty on the object being built: a repeated key keeps its
    place and takes the later value; a new array index goes among the
    array indices; any other new key goes last. *)
Definition set_member (o : list (jsstring * json)) (k : jsstring) (v : json)
  : list (jsstring * json) :=
  if has_key k o then replace_key k v o
  else match array_index k with
       | Some n => insert_index n k v o
       | None => o ++ [(k, v)]
       end.

(** *** The grammar of values *)

(** A JSON value at the head of [s], after optional white space, and the
    text that follows it.  [fuel] bounds the number of nested calls;
    [parse] gives enough for any text. *)
Fixpoint parse_value (fuel : nat) (s : jsstring) : option (json * jsstring) :=
  match fuel with
  | O => None
  | S fuel' =>
      match skip_ws s with
      | [] => None
      | c :: rest =>
          if c =? 123 then
            match skip_ws rest with
            | [] => None
            | c' :: rest' =>
                if c' =? 125 then Some (JObj [], rest')
                else parse_members fuel' (c' :: rest') []
            end
          else if c =? 91 then
            match skip_ws rest with
            | [] => None
            | c' :: rest' =>
                if c' =? 93 then Some (JArr [], rest')
                else parse_elements fuel' (c' :: rest') []
            end
          else if c =? 34 then
            match parse_string_chars rest with
            | Some (str, r) => Some (JStr str, r)
            | None => None
            end
          else
            match strip_prefix (js "true") (c :: rest) with
            | Some r => Some (JBool true, r)
            | None =>
            match strip_prefix (js "false") (c :: rest) with
            | Some r => Some (JBool false, r)
            | None =>
            match strip_prefix (js "null") (c :: rest) with
            | Some r => Some (JNull, r)
            | None =>
            match parse_number (c :: rest) with
            | Some (lexeme, r) => Some (JNum lexeme, r)
            | None => None
            end end end end
      end
  end

(** The elements of an array after [[]: values separated by commas, up to
    the closing bracket.  [acc] holds the elements read so far, last first. *)
with parse_elements (fuel : nat) (s : jsstring) (acc : list json)
  : option (json * jsstring) :=
  match fuel with
  | O => None
  | S fuel' =>
      match parse_value fuel' s with
      | None => None
      | Some (v, r) =>
          match skip_ws r with
          | [] => None
          | c :: rest =>
              if c =? 44 then parse_elements fuel' rest (v :: acc)
              else if c =? 93 then Some (JArr (rev (v :: acc)), rest)
              else None
          end
      end
  end

(** The members of an object after [{]: [string : value] separated by
    commas, up to the closing brace.  [acc] is the object built so far. *)
with parse_members (fuel : nat) (s : jsstring) (acc : list (jsstring * json))
  : option (json * jsstring) :=
  match fuel with
  | O => None
  | S fuel' =>
      match skip_ws s with
      | [] => None
      | q :: r =>
          if q =? 34 then
            match parse_string_chars r with
            | None => None
            | Some (k, r1) =>
                match skip_ws r1 with
                | [] => None
                | colon :: r2 =>
                    if colon =? 58 then
                      match parse_value fuel' r2 with
                      | None => None
                      | Some (v, r3) =>
                          match skip_ws r3 with
                          | [] => None
                          | c :: rest =>
                              if c =? 44
                              then parse_members fuel' rest (set_member acc k v)
                              else if c =? 125
                              then Some (JObj (set_member acc k v), rest)
                              else None
                          end
                      end
                    else None
                end
            end
          else None
      end
  end.

(** [JSON.parse(text)]: the value the whole text denotes, or [None] where
    [JSON.parse] throws a SyntaxError. *)
Definition parse (s : jsstring) : option json :=
  match parse_value (S (2 * List.length s)) s with
  | Some (v, rest) =>
      match skip_ws rest with
      | [] => Some v
      | _ :: _ => None
      end
  | None => None
  end.

End JSON.

Import JSON.

(* ================================================================== *)
(** ** Persistence *)

(** The object a task is at run time: its three own properties, in the
    order the handlers create them. *)
Definition Task_value (t : Task) : json :=
  JObj [ (js "id", JStr (id t));
         (js "text", JStr (text t));
         (js "completed", JBool (completed t)) ].

(** The array a task list is at run time. *)
Definition TaskList_value (l : list Task) : json :=
  JArr (List.map Task_value l).

(** How [AsyncStorage.getItem('tasks')] settles: rejected, or resolved
    with the stored text or [null]. *)
Inductive getItem_result : Type :=
| GetRejected
| GetResolved (value : option jsstring).

(** How [AsyncStorage.setItem('tasks', text)] settles. *)
Inductive setItem_result : Type :=
| SetRejected
| SetResolved.

(** The messages passed to [console.error]. *)
Definition console : Type := list jsstring.

(** How the application is mounted (the entry file is not part of the
    component).  On a legacy root a [setTasks] called after the [await]
    renders before it returns, so an error thrown while rendering comes
    out of the call; on a concurrent root the render is scheduled and
    runs after [loadTasks] has returned. *)
Inductive root_kind : Type :=
| LegacyRoot
| ConcurrentRoot.

(** What the screen (React Native, [FlatList] and the rows of lines
    120-150) makes of a value in the [tasks] cell: [renders v] says that
    the render [setTasks(v)] triggers goes through.  Two facts are known
    from the component: it renders every list of tasks (what it is
    written for), and it throws on a list whose first row is [null], at
    [item.id] in [keyExtractor] (line 150).  What it does with other
    values is left to the platform. *)
Record Screen : Type := mkScreen {
  renders : json -> bool;
  renders_TaskList : forall l : list Task, renders (TaskList_value l) = true;
  renders_null_row : forall rest : list json,
      renders (JArr (JNull :: rest)) = false
}.

(** How [loadTasks] leaves the application. *)
Inductive load_result : Type :=
| Shown (cell : json) (log : console)
    (* the screen is up with this value in the [tasks] cell *)
| Unmounted (log : console)
    (* the render threw inside [setTasks]: React unmounted the tree and
       the [catch] logged the error *)
| Crashed.
    (* [loadTasks] had returned when the render threw: nothing caught it *)

(** [loadTasks] (lines 27-36), from the value of the [tasks] cell when the
    read settles.  TypeScript's types are erased: [setTasks] receives
    whatever [JSON.parse] returns.  A rejected read and a SyntaxError are
    caught and logged, and the cell keeps its value; [null] and the empty
    string are falsy and skip the [if].  When the parsed value cannot be
    rendered, the error is thrown inside the [try] on a legacy root (so
    it is caught and logged, the tree being unmounted) and after
    [loadTasks] has returned on a concurrent root (so it is caught by
    nothing). *)
Definition loadTasks (sc : Screen) (root : root_kind) (r : getItem_result)
  (current : json) : load_result :=
  match r with
  | GetRejected => Shown current [js "Failed to load tasks"]
  | GetResolved None => Shown current []
  | GetResolved (Some savedTasks) =>
      if truthy savedTasks then
        match JSON.parse savedTasks with
        | Some value =>
            if renders sc value then Shown value []
            else match root with
                 | LegacyRoot => Unmounted [js "Failed to load tasks"]
                 | ConcurrentRoot => Crashed
                 end
        | None => Shown current [js "Failed to load tasks"]
        end
      else Shown current []
  end.

(** [saveTasks] (lines 39-45), on the content of the slot: a write that
    resolves replaces the whole slot, one that is rejected is logged. *)
Definition saveTasks (updatedTasks : list Task) (r : setItem_result)
  (slot : option jsstring) : option jsstring * console :=
  match r with
  | SetResolved => (Some (JSON.stringify updatedTasks), [])
  | SetRejected => (slot, [js "Failed to save tasks"])
  end.

(** ** The add button and the history of saves *)


(** The slot after the [saveTasks] calls of [calls] have settled, in the
    order they settle: each call comes with the list it was handed and
    with how its write settled. *)
Definition settle_saves (calls : list (list Task * setItem_result))
  (slot : option jsstring) : option jsstring :=
  List.fold_left (fun sl call => fst (saveTasks (fst call) (snd call) sl))
                 calls slot.

(** The list of the last call whose write resolved, if any did. *)
Fixpoint last_resolved (calls : list (list Task * setItem_result))
  : option (list Task) :=
  match calls with
  | [] => None
  | (l, r) :: rest =>
      match last_resolved rest with
      | Some m => Some m
      | None =>
          match r with
          | SetResolved => Some l
          | SetRejected => None
          end
      end
  end.

(** What handling a gesture leaves behind: the handler's outcome, or the
    next state alone for the two gestures whose handlers never save
    ([setTask] of line 109 and [startEditingTask]). *)
Definition handle (s : AppState) (e : event) : outcome :=
  match e with
  | OnChangeText input => (setTask input s, None)
  | PressAdd now => addOrUpdateTask now s
  | PressToggle taskId => toggleTaskCompletion taskId s
  | PressEdit taskId => (startEditingTask taskId s, None)
  | PressDelete taskId => deleteTask taskId s
  end.

(** The lists handed to [saveTasks] during a run, in the order of the
    calls. *)
Fixpoint saves_of (evs : list event) (s : AppState) : list (list Task) :=
  match evs with
  | [] => []
  | e :: rest =>
      match snd (handle s e) with
      | Some updatedTasks => updatedTasks :: saves_of rest (fst (handle s e))
      | None => saves_of rest (fst (handle s e))
      end
  end.

(** The calls of a run when every write resolves, in the order of the calls. *)
Definition all_resolved (saves : list (list Task))
  : list (list Task * setItem_result) :=
  List.map (fun updatedTasks => (updatedTasks, SetResolved)) saves.

(** ** An invariant of runs *)

(** Every id in the list is the decimal text of a clock reading in [seen]. *)
Definition ids_from (seen : list Z) (s : AppState) : Prop :=
  forall i, In i (List.map id (tasks s)) -> exists n, In n seen /\ i = toString n.


(** ** Tactics *)

(** In a proof about fuel: the fuel at hand is positive, by arithmetic on
    the lengths in the context. *)
Ltac more_fuel f' :=
  destruct f' as [| f']; [cbn [List.length] in *; lia |].

(* ================================================================== *)
(** * Properties *)

(* ================================================================== *)
(** ** Strings: literals, trimming and the decimal text of a number *)

Section Strings.

Lemma js_inj (a b : string) : js a = js b -> a = b.
Proof.
  unfold js. intros H.
  assert (E : list_ascii_of_string a = list_ascii_of_string b).
  { revert H. generalize (list_ascii_of_string a) (list_ascii_of_string b).
    intros x. induction x as [| c x IH]; intros [| d y] H;
      try discriminate; [reflexivity |].
    cbn [List.map] in H. injection H as Hc Hx.
    f_equal; [| now apply IH].
    rewrite <- (ascii_N_embedding c), <- (ascii_N_embedding d). now f_equal. }
  rewrite <- (string_of_list_ascii_of_string a),
          <- (string_of_list_ascii_of_string b).
  now f_equal.
Qed.

(** Two numbers with the same decimal text are the same number. *)
Lemma toString_inj (m n : Z) : toString m = toString n -> m = n.
Proof.
  unfold toString. intros H. apply js_inj in H.
  apply DecimalZ.to_int_inj.
  assert (E : NilEmpty.int_of_string (NilEmpty.string_of_int (Z.to_int m))
              = NilEmpty.int_of_string (NilEmpty.string_of_int (Z.to_int n)))
    by now f_equal.
  rewrite !NilEmpty.isi in E. now injection E.
Qed.

Lemma truthy_false (s : jsstring) : truthy s = false <-> s = [].
Proof. destruct s; cbn; split; congruence. Qed.

Lemma truthy_true (s : jsstring) : truthy s = true <-> s <> [].
Proof. destruct s; cbn; split; congruence. Qed.

End Strings.

Section Trimming.
Open Scope N_scope.

Lemma trimStart_nil_iff (s : jsstring) :
  trimStart s = [] <-> forallb is_white_space s = true.
Proof.
  induction s as [| c s IH]; cbn [trimStart forallb]; [tauto |].
  destruct (is_white_space c); cbn [andb]; [exact IH |].
  split; discriminate.
Qed.

Lemma trimStart_head (s : jsstring) (c : code_unit) (r : jsstring) :
  trimStart s = c :: r -> is_white_space c = false.
Proof.
  induction s as [| d s IH]; cbn [trimStart]; [discriminate |].
  destruct (is_white_space d) eqn:E; [exact IH |].
  intros H. injection H as -> _. exact E.
Qed.

(** The trim of a string is empty exactly when the string holds white
    space only. *)
Lemma trim_nil_iff (s : jsstring) :
  trim s = [] <-> forallb is_white_space s = true.
Proof.
  unfold trim, trimEnd. split.
  - intros H. apply (f_equal (@rev code_unit)) in H.
    rewrite rev_involutive in H. cbn [rev] in H.
    apply trimStart_nil_iff in H.
    destruct (trimStart s) as [| c r] eqn:E; [now apply trimStart_nil_iff |].
    apply trimStart_head in E.
    rewrite forallb_forall in H.
    rewrite (H c) in E; [discriminate E |].
    apply in_rev. rewrite rev_involutive. now left.
  - intros H. apply trimStart_nil_iff in H. rewrite H. reflexivity.
Qed.

Example trim_examples :
  trim (js "") = [] /\ trim (js "   ") = []
  /\ trim (js "  buy milk  ") = js "buy milk"
  /\ trim [9; 160; 8232; 65279] = [].
Proof. repeat split. Qed.

End Trimming.

(* ================================================================== *)
(** ** The lists the handlers compute *)

Section Lists.

Variable target : jsstring.

Lemma edit_ids (input : jsstring) (l : list Task) :
  List.map id (updatedTasks_edit target input l) = List.map id l.
Proof.
  unfold updatedTasks_edit. rewrite map_map. apply map_ext.
  intros t. destruct (str_eq_dec (id t) target); reflexivity.
Qed.

Lemma toggle_ids (l : list Task) :
  List.map id (updatedTasks_toggle target l) = List.map id l.
Proof.
  unfold updatedTasks_toggle. rewrite map_map. apply map_ext.
  intros t. destruct (str_eq_dec (id t) target); reflexivity.
Qed.

Lemma add_ids (now : Z) (input : jsstring) (l : list Task) :
  List.map id (updatedTasks_add now input l) = List.map id l ++ [toString now].
Proof. unfold updatedTasks_add. rewrite map_app. reflexivity. Qed.

Lemma delete_In (l : list Task) (t : Task) :
  In t (updatedTasks_delete target l) <-> In t l /\ id t <> target.
Proof.
  unfold updatedTasks_delete. rewrite filter_In.
  destruct (str_eq_dec (id t) target); intuition congruence.
Qed.

Lemma delete_app (l1 l2 : list Task) :
  updatedTasks_delete target (l1 ++ l2)
  = updatedTasks_delete target l1 ++ updatedTasks_delete target l2.
Proof. apply filter_app. Qed.

Lemma delete_ids_In (l : list Task) (i : jsstring) :
  In i (List.map id (updatedTasks_delete target l)) -> In i (List.map id l).
Proof.
  rewrite !in_map_iff. intros [t [E H]]. apply delete_In in H.
  exists t. tauto.
Qed.

Lemma delete_ids_NoDup (l : list Task) :
  NoDup (List.map id l) -> NoDup (List.map id (updatedTasks_delete target l)).
Proof.
  induction l as [| t l IH]; intros H.
  - constructor.
  - cbn [List.map] in H. inversion H as [| ? ? Hnot Hrest]; subst.
    cbn [updatedTasks_delete filter].
    destruct (str_eq_dec (id t) target).
    + now apply IH.
    + cbn [List.map]. constructor.
      * intros Hin. apply Hnot. now apply delete_ids_In.
      * now apply IH.
Qed.

Lemma edit_absent (input : jsstring) (l : list Task) :
  (forall t, In t l -> id t <> target) -> updatedTasks_edit target input l = l.
Proof.
  intros H. unfold updatedTasks_edit.
  rewrite <- (map_id l) at 2. apply map_ext_in.
  intros t Hin. destruct (str_eq_dec (id t) target); [| reflexivity].
  now destruct (H t Hin).
Qed.

Lemma toggle_absent (l : list Task) :
  (forall t, In t l -> id t <> target) -> updatedTasks_toggle target l = l.
Proof.
  intros H. unfold updatedTasks_toggle.
  rewrite <- (map_id l) at 2. apply map_ext_in.
  intros t Hin. destruct (str_eq_dec (id t) target); [| reflexivity].
  now destruct (H t Hin).
Qed.

Lemma delete_absent (l : list Task) :
  (forall t, In t l -> id t <> target) -> updatedTasks_delete target l = l.
Proof.
  intros H. induction l as [| t l IH]; [reflexivity |].
  cbn [updatedTasks_delete filter].
  destruct (str_eq_dec (id t) target) as [E | _].
  - destruct (H t (or_introl eq_refl) E).
  - f_equal. apply IH. intros u Hu. apply H. now right.
Qed.

Lemma edit_nth (input : jsstring) (l : list Task) (i : nat) (t : Task) :
  nth_error l i = Some t ->
  nth_error (updatedTasks_edit target input l) i
  = Some (if str_eq_dec (id t) target
          then {| id := id t; text := input; completed := completed t |}
          else t).
Proof.
  intros H. unfold updatedTasks_edit.
  rewrite nth_error_map, H. reflexivity.
Qed.

Lemma toggle_nth (l : list Task) (i : nat) (t : Task) :
  nth_error l i = Some t ->
  nth_error (updatedTasks_toggle target l) i
  = Some (if str_eq_dec (id t) target
          then {| id := id t; text := text t; completed := negb (completed t) |}
          else t).
Proof.
  intros H. unfold updatedTasks_toggle.
  rewrite nth_error_map, H. reflexivity.
Qed.

Lemma toggle_toggle (l : list Task) :
  updatedTasks_toggle target (updatedTasks_toggle target l) = l.
Proof.
  unfold updatedTasks_toggle. rewrite map_map.
  rewrite <- (map_id l) at 2. apply map_ext.
  intros [i x b]. cbn [id].
  destruct (str_eq_dec i target) as [E | N]; cbn [id text completed].
  - destruct (str_eq_dec i target); [| contradiction].
    now rewrite negb_involutive.
  - destruct (str_eq_dec i target); [contradiction | reflexivity].
Qed.

Lemma find_present (l : list Task) (x : Task) :
  In x l -> id x = target ->
  exists t, List.find (fun item => if str_eq_dec (id item) target then true else false) l
            = Some t /\ id t = target.
Proof.
  intros Hin E. induction l as [| u l IH]; [destruct Hin |].
  cbn [List.find]. destruct (str_eq_dec (id u) target) as [Eu | Nu].
  - exists u. auto.
  - destruct Hin as [-> | Hin]; [contradiction | now apply IH].
Qed.

Lemma find_absent (l : list Task) :
  (forall t, In t l -> id t <> target) ->
  List.find (fun item => if str_eq_dec (id item) target then true else false) l = None.
Proof.
  intros H. induction l as [| u l IH]; [reflexivity |].
  cbn [List.find]. destruct (str_eq_dec (id u) target) as [Eu | Nu].
  - destruct (H u (or_introl eq_refl) Eu).
  - apply IH. intros t Ht. apply H. now right.
Qed.

End Lists.

(* ================================================================== *)
(** ** Runs: ids come from the clock *)

Section Runs.

Lemma NoDup_app_disjoint (A : Type) (l1 l2 : list A) :
  NoDup (l1 ++ l2) -> forall a, In a l1 -> ~ In a l2.
Proof.
  induction l1 as [| x l1 IH]; intros H a Hin; [destruct Hin |].
  cbn [app] in H. inversion H as [| ? ? Hnot Hrest]; subst.
  destruct Hin as [-> | Hin].
  - intros Hin2. apply Hnot. apply in_or_app. now right.
  - now apply IH.
Qed.

Lemma run_app (evs1 evs2 : list event) (s : AppState) :
  run (evs1 ++ evs2) s = run evs2 (run evs1 s).
Proof. apply fold_left_app. Qed.

Lemma run_cons (e : event) (evs : list event) (s : AppState) :
  run (e :: evs) s = run evs (step s e).
Proof. reflexivity. Qed.

Lemma addOrUpdateTask_cases (now : Z) (s : AppState) :
  let l' := tasks (fst (addOrUpdateTask now s)) in
  List.map id l' = List.map id (tasks s)
  \/ List.map id l' = List.map id (tasks s) ++ [toString now].
Proof.
  unfold addOrUpdateTask.
  destruct (truthy (trim (task s))); [| now left].
  destruct (edit_target s) as [target |]; cbn [fst tasks].
  - left. apply edit_ids.
  - right. apply add_ids.
Qed.

Lemma step_ids (s : AppState) (e : event) (seen : list Z) :
  NoDup (List.map id (tasks s)) ->
  ids_from seen s ->
  (forall n, In n (clock_readings [e]) -> ~ In n seen) ->
  NoDup (List.map id (tasks (step s e)))
  /\ ids_from (clock_readings [e] ++ seen) (step s e).
Proof.
  intros ND From Fresh.
  destruct e as [input | now | taskId | taskId | taskId];
    cbn [step clock_readings app].
  - split; assumption.
  - destruct (addOrUpdateTask_cases now s) as [E | E]; cbv zeta in E.
    + unfold ids_from. rewrite E. split; [assumption |].
      intros i Hi. destruct (From i Hi) as [n [Hn Ei]].
      exists n. split; [now right | assumption].
    + unfold ids_from. rewrite E. split.
      * apply NoDup_app; [assumption | repeat constructor; intros [] |].
        intros i Hi [<- | []].
        destruct (From _ Hi) as [n [Hn Ei]].
        apply toString_inj in Ei. subst n.
        apply (Fresh now); [now left | assumption].
      * intros i Hi. apply in_app_or in Hi. destruct Hi as [Hi | [<- | []]].
        -- destruct (From i Hi) as [n [Hn Ei]].
           exists n. split; [now right | assumption].
        -- exists now. split; [now left | reflexivity].
  - unfold ids_from. cbn [toggleTaskCompletion fst tasks].
    rewrite toggle_ids. split; assumption.
  - unfold startEditingTask.
    destruct (List.find _ (tasks s)); split; assumption.
  - unfold ids_from. cbn [deleteTask fst tasks]. split.
    + now apply delete_ids_NoDup.
    + intros i Hi. apply From. now apply delete_ids_In in Hi.
Qed.

Lemma clock_readings_cons (e : event) (evs : list event) :
  clock_readings (e :: evs) = clock_readings [e] ++ clock_readings evs.
Proof. destruct e; reflexivity. Qed.

Lemma run_ids (evs : list event) :
  forall (s : AppState) (seen : list Z),
    NoDup (List.map id (tasks s)) ->
    ids_from seen s ->
    NoDup (clock_readings evs) ->
    (forall n, In n (clock_readings evs) -> ~ In n seen) ->
    NoDup (List.map id (tasks (run evs s))).
Proof.
  induction evs as [| e evs IH]; intros s seen ND From NDc Fresh.
  - exact ND.
  - rewrite run_cons. rewrite clock_readings_cons in NDc, Fresh.
    destruct (@step_ids s e seen ND From) as [ND' From'].
    { intros n Hn. apply Fresh. apply in_or_app. now left. }
    apply (IH (step s e) (clock_readings [e] ++ seen) ND' From').
    + now apply NoDup_app_remove_l in NDc.
    + intros n Hn Hin. apply in_app_or in Hin. destruct Hin as [Hin | Hin].
      * exact (@NoDup_app_disjoint _ _ _ NDc n Hin Hn).
      * apply (Fresh n); [apply in_or_app; now right | assumption].
Qed.

(** C1, as the code has it: when no two presses of the add button read
    the same clock value, every list reached from the empty one has
    pairwise-distinct ids. *)
Theorem distinct_clock_readings_distinct_ids (evs : list event) :
  NoDup (clock_readings evs) ->
  NoDup (List.map id (tasks (run evs initial))).
Proof.
  intros H. apply (@run_ids evs initial []).
  - constructor.
  - intros i [].
  - exact H.
  - intros n _ [].
Qed.

Lemma distinct_clock_readings_distinct_ids_witness :
  NoDup (List.map id
           (tasks (run (add 1700000000000 (js "buy milk")
                        ++ toggleCompletion (toString 1700000000000)
                        ++ add 1700000000001 (js "buy bread")) initial))).
Proof.
  apply distinct_clock_readings_distinct_ids.
  cbn [add toggleCompletion app clock_readings].
  constructor.
  - intros [H | []]. discriminate H.
  - constructor; [intros [] | constructor].
Defined.

(** C1, as stated, fails: two adds that read the same millisecond give
    two tasks with the same id. *)
Lemma same_millisecond_same_id :
  let s := run (add 1700000000000 (js "buy milk")
                ++ add 1700000000000 (js "buy bread")) initial in
  List.map id (tasks s) = [toString 1700000000000; toString 1700000000000]
  /\ ~ NoDup (List.map id (tasks s)).
Proof.
  cbv zeta. split.
  - reflexivity.
  - intros H.
    change (NoDup [toString 1700000000000; toString 1700000000000]) in H.
    inversion H as [| ? ? Hnot _]; subst. apply Hnot. now left.
Qed.
End Runs.

(* ================================================================== *)
(** ** JSON: what is written is read back *)

Section StringRoundTrip.
Open Scope N_scope.

Lemma hex_value_hex_digit (d : N) : d < 16 -> hex_value (hex_digit d) = Some d.
Proof.
  intros H.
  assert (E : d = 0 \/ d = 1 \/ d = 2 \/ d = 3 \/ d = 4 \/ d = 5 \/ d = 6 \/ d = 7
           \/ d = 8 \/ d = 9 \/ d = 10 \/ d = 11 \/ d = 12 \/ d = 13 \/ d = 14
           \/ d = 15) by lia.
  repeat (destruct E as [E | E]; [subst d; reflexivity | ]).
  subst d; reflexivity.
Qed.

Lemma hex4_digits (c : code_unit) :
  c < 65536 ->
  hex4 (hex_digit (c / 4096 mod 16)) (hex_digit (c / 256 mod 16))
       (hex_digit (c / 16 mod 16)) (hex_digit (c mod 16)) = Some c.
Proof.
  intros H. unfold hex4.
  rewrite !hex_value_hex_digit by (apply N.mod_lt; discriminate).
  f_equal.
  pose proof (N.div_mod c 16 ltac:(discriminate)) as H0.
  pose proof (N.div_mod (c / 16) 16 ltac:(discriminate)) as H1.
  pose proof (N.div_mod (c / 16 / 16) 16 ltac:(discriminate)) as H2.
  rewrite !N.Div0.div_div in *.
  change (16 * 16) with 256 in *. change (256 * 16) with 4096 in *.
  assert (c / 4096 < 16) by (apply N.Div0.div_lt_upper_bound; exact H).
  rewrite (N.mod_small (c / 4096) 16) by assumption.
  lia.
Qed.

Lemma parse_UnicodeEscape (c : code_unit) (k : jsstring) :
  c < 65536 ->
  parse_string_chars (UnicodeEscape c ++ k) = cons_unit c (parse_string_chars k).
Proof.
  intros H. unfold UnicodeEscape. cbn [app parse_string_chars].
  change (92 =? 34) with false. change (92 =? 92) with true.
  change (117 =? 117) with true. cbv iota.
  rewrite hex4_digits by exact H. reflexivity.
Qed.

Lemma parse_verbatim (c : code_unit) (k : jsstring) :
  (c =? 34) = false -> (c =? 92) = false -> (c <? 32) = false ->
  parse_string_chars (c :: k) = cons_unit c (parse_string_chars k).
Proof.
  intros H1 H2 H3. cbn [parse_string_chars]. rewrite H1, H2, H3. reflexivity.
Qed.

Lemma parse_escape_unit (c : code_unit) (k : jsstring) :
  parse_string_chars (escape_unit c ++ k) = cons_unit c (parse_string_chars k).
Proof.
  unfold escape_unit.
  repeat match goal with
  | |- context [if ?x =? ?n then _ else _] =>
      let E := fresh "E" in
      destruct (x =? n) eqn:E;
      [ apply N.eqb_eq in E; subst; reflexivity | ]
  end.
  destruct ((c <? 32) || is_lead_surrogate c || is_trail_surrogate c) eqn:U.
  - apply parse_UnicodeEscape.
    unfold is_lead_surrogate, is_trail_surrogate in U.
    apply orb_true_iff in U. destruct U as [U | U].
    + apply orb_true_iff in U. destruct U as [U | U].
      * apply N.ltb_lt in U. lia.
      * apply andb_true_iff in U. destruct U as [_ U]. apply N.leb_le in U. lia.
    + apply andb_true_iff in U. destruct U as [_ U]. apply N.leb_le in U. lia.
  - apply orb_false_iff in U. destruct U as [U _].
    apply orb_false_iff in U. destruct U as [U _].
    apply parse_verbatim; assumption.
Qed.

Lemma parse_surrogate (c : code_unit) (k : jsstring) :
  is_lead_surrogate c || is_trail_surrogate c = true ->
  parse_string_chars (c :: k) = cons_unit c (parse_string_chars k).
Proof.
  intros U. unfold is_lead_surrogate, is_trail_surrogate in U.
  assert (55296 <= c).
  { apply orb_true_iff in U.
    destruct U as [U | U]; apply andb_true_iff in U; destruct U as [U _];
      apply N.leb_le in U; lia. }
  apply parse_verbatim.
  - apply N.eqb_neq. lia.
  - apply N.eqb_neq. lia.
  - apply N.ltb_ge. lia.
Qed.

Lemma parse_quote_units (s : jsstring) :
  forall (after_lead : bool) (k : jsstring),
    parse_string_chars (quote_units after_lead s ++ 34 :: k) = Some (s, k).
Proof.
  induction s as [| c rest IH]; intros after_lead k.
  - reflexivity.
  - cbn [quote_units].
    set (lead := is_lead_surrogate c && _).
    set (trail := is_trail_surrogate c && after_lead).
    rewrite <- app_assoc.
    destruct (lead || trail) eqn:P.
    + cbn [app]. rewrite parse_surrogate.
      * rewrite IH. reflexivity.
      * subst lead trail. apply orb_true_iff in P.
        destruct P as [P | P]; apply andb_true_iff in P; destruct P as [P _];
          rewrite P; auto using orb_true_r.
    + rewrite parse_escape_unit, IH. reflexivity.
Qed.

Lemma parse_QuoteJSONString (s k : jsstring) :
  exists body, QuoteJSONString s ++ k = 34 :: body
               /\ parse_string_chars body = Some (s, k).
Proof.
  exists (quote_units false s ++ 34 :: k). split.
  - unfold QuoteJSONString. cbn [app]. rewrite <- app_assoc. reflexivity.
  - apply parse_quote_units.
Qed.
End StringRoundTrip.

Section TaskRoundTrip.
Open Scope N_scope.

Lemma stringify_task_shape (t : Task) (k : jsstring) :
  stringify_task t ++ k =
  [123; 34; 105; 100; 34; 58; 34] ++ quote_units false (id t) ++
  [34; 44; 34; 116; 101; 120; 116; 34; 58; 34] ++ quote_units false (text t) ++
  [34; 44; 34; 99; 111; 109; 112; 108; 101; 116; 101; 100; 34; 58] ++
  (if completed t then [116; 114; 117; 101] else [102; 97; 108; 115; 101]) ++
  125 :: k.
Proof.
  unfold stringify_task.
  change (js "{") with [123]. change (js ":") with [58].
  change (js ",") with [44]. change (js "}") with [125].
  change (QuoteJSONString (js "id")) with [34; 105; 100; 34].
  change (QuoteJSONString (js "text")) with [34; 116; 101; 120; 116; 34].
  change (QuoteJSONString (js "completed"))
    with [34; 99; 111; 109; 112; 108; 101; 116; 101; 100; 34].
  change (js "true") with [116; 114; 117; 101].
  change (js "false") with [102; 97; 108; 115; 101].
  unfold QuoteJSONString.
  repeat (rewrite <- ?app_assoc; cbn [app]).
  reflexivity.
Qed.

Lemma set_member_task (i x : jsstring) (b : bool) :
  set_member (set_member (set_member [] (js "id") (JStr i)) (js "text") (JStr x))
             (js "completed") (JBool b)
  = [(js "id", JStr i); (js "text", JStr x); (js "completed", JBool b)].
Proof. reflexivity. Qed.

Lemma parse_value_task (fuel : nat) (t : Task) (k : jsstring) :
  parse_value (S (S (S (S (S fuel))))) (stringify_task t ++ k)
  = Some (Task_value t, k).
Proof.
  rewrite stringify_task_shape. destruct t as [i x b].
  cbn. rewrite parse_quote_units.
  cbn. rewrite parse_quote_units.
  destruct b; reflexivity.
Qed.

Lemma stringify_task_head (t : Task) (k : jsstring) :
  exists rest, stringify_task t ++ k = 123 :: rest.
Proof. rewrite stringify_task_shape. cbn [app]. eauto. Qed.

Lemma parse_elements_eq (fuel : nat) (s : jsstring) (acc : list json) :
  parse_elements (S fuel) s acc =
  match parse_value fuel s with
  | None => None
  | Some (v, r) =>
      match skip_ws r with
      | [] => None
      | c :: rest =>
          if c =? 44 then parse_elements fuel rest (v :: acc)
          else if c =? 93 then Some (JArr (rev (v :: acc)), rest)
          else None
      end
  end.
Proof. reflexivity. Qed.

Lemma parse_elements_tasks (l : list Task) :
  forall (t : Task) (fuel : nat) (acc : list json) (k : jsstring),
    parse_elements (S (S (S (S (S (S (List.length l + fuel)))))))
                   (stringify_elements (t :: l) ++ 93 :: k) acc
    = Some (JArr (rev acc ++ List.map Task_value (t :: l)), k).
Proof.
  induction l as [| t' l IH]; intros t fuel acc k.
  - cbn [stringify_elements List.length plus].
    rewrite parse_elements_eq, parse_value_task. reflexivity.
  - change (stringify_elements (t :: t' :: l))
      with (stringify_task t ++ js "," ++ stringify_elements (t' :: l)).
    rewrite <- !app_assoc.
    cbn [List.length plus].
    rewrite parse_elements_eq, parse_value_task.
    change (js ",") with [44]. cbn [app skip_ws].
    change (is_json_ws 44) with false. cbv iota.
    change (44 =? 44) with true. cbv iota.
    rewrite IH. cbn [rev List.map]. rewrite <- app_assoc. reflexivity.
Qed.

Lemma length_stringify_task (t : Task) :
  (36 <= List.length (stringify_task t))%nat.
Proof.
  rewrite <- (app_nil_r (stringify_task t)), stringify_task_shape.
  rewrite !length_app. destruct (completed t); cbn [List.length]; lia.
Qed.

Lemma length_stringify_elements (l : list Task) :
  (36 * List.length l <= List.length (stringify_elements l))%nat.
Proof.
  induction l as [| t [| t' l] IH].
  - cbn. lia.
  - cbn [stringify_elements List.length]. pose proof (length_stringify_task t). lia.
  - change (stringify_elements (t :: t' :: l))
      with (stringify_task t ++ js "," ++ stringify_elements (t' :: l)).
    rewrite !length_app. pose proof (length_stringify_task t).
    cbn [List.length] in *. lia.
Qed.

Lemma parse_value_array_of_objects (fuel : nat) (rest : jsstring) :
  parse_value (S fuel) (91 :: 123 :: rest) = parse_elements fuel (123 :: rest) [].
Proof. reflexivity. Qed.

Theorem parse_stringify (l : list Task) :
  parse (stringify l) = Some (TaskList_value l).
Proof.
  unfold parse, stringify, TaskList_value.
  destruct l as [| t l].
  - reflexivity.
  - pose proof (length_stringify_elements (t :: l)) as L.
    change (js "[") with [91]. change (js "]") with [93].
    cbn [app List.length].
    rewrite length_app. cbn [List.length] in L |- *.
    remember (List.length (stringify_elements (t :: l))) as n eqn:En.
    replace (2 * S (n + 1))%nat
      with (S (S (S (S (S (S (List.length l + (2 * n - 2 - List.length l))))))))%nat
      by lia.
    destruct (stringify_task_head t
                (match l with
                 | [] => []
                 | _ :: _ => js "," ++ stringify_elements l
                 end ++ [93])) as [rest E].
    assert (E' : stringify_elements (t :: l) ++ [93] = 123 :: rest).
    { rewrite <- E. destruct l; cbn [stringify_elements];
        rewrite <- ?app_assoc; reflexivity. }
    rewrite E', parse_value_array_of_objects, <- E'.
    rewrite parse_elements_tasks. reflexivity.
Qed.

End TaskRoundTrip.

(** *** The fuel of the parser *)

Section Fuel.
Open Scope N_scope.

Lemma parse_value_eq (fuel : nat) (s : jsstring) :
  parse_value (S fuel) s =
  match skip_ws s with
  | [] => None
  | c :: rest =>
      if c =? 123 then
        match skip_ws rest with
        | [] => None
        | c' :: rest' =>
            if c' =? 125 then Some (JObj [], rest')
            else parse_members fuel (c' :: rest') []
        end
      else if c =? 91 then
        match skip_ws rest with
        | [] => None
        | c' :: rest' =>
            if c' =? 93 then Some (JArr [], rest')
            else parse_elements fuel (c' :: rest') []
        end
      else if c =? 34 then
        match parse_string_chars rest with
        | Some (str, r) => Some (JStr str, r)
        | None => None
        end
      else
        match strip_prefix (js "true") (c :: rest) with
        | Some r => Some (JBool true, r)
        | None =>
        match strip_prefix (js "false") (c :: rest) with
        | Some r => Some (JBool false, r)
        | None =>
        match strip_prefix (js "null") (c :: rest) with
        | Some r => Some (JNull, r)
        | None =>
        match parse_number (c :: rest) with
        | Some (lexeme, r) => Some (JNum lexeme, r)
        | None => None
        end end end end
  end.
Proof. reflexivity. Qed.

Lemma parse_members_eq (fuel : nat) (s : jsstring) (acc : list (jsstring * json)) :
  parse_members (S fuel) s acc =
  match skip_ws s with
  | [] => None
  | q :: r =>
      if q =? 34 then
        match parse_string_chars r with
        | None => None
        | Some (k, r1) =>
            match skip_ws r1 with
            | [] => None
            | colon :: r2 =>
                if colon =? 58 then
                  match parse_value fuel r2 with
                  | None => None
                  | Some (v, r3) =>
                      match skip_ws r3 with
                      | [] => None
                      | c :: rest =>
                          if c =? 44
                          then parse_members fuel rest (set_member acc k v)
                          else if c =? 125
                          then Some (JObj (set_member acc k v), rest)
                          else None
                      end
                  end
                else None
            end
        end
      else None
  end.
Proof. reflexivity. Qed.

Lemma length_skip_ws (s : jsstring) :
  (List.length (skip_ws s) <= List.length s)%nat.
Proof.
  induction s as [| c s IH]; cbn [skip_ws List.length]; [lia |].
  destruct (is_json_ws c); cbn [List.length]; lia.
Qed.

Lemma length_parse_string_chars (s str r : jsstring) :
  parse_string_chars s = Some (str, r) -> (List.length r < List.length s)%nat.
Proof.
  remember (List.length s) as n eqn:En.
  revert s str r En. induction n as [n IH] using lt_wf_ind.
  intros s str r En H. destruct s as [| c rest]; [discriminate H |].
  cbn [parse_string_chars] in H. cbn [List.length] in En.
  destruct (c =? 34).
  { injection H as _ <-. lia. }
  destruct (c =? 92).
  - destruct rest as [| e rest1]; [discriminate H |].
    destruct (e =? 117).
    + destruct rest1 as [| h1 [| h2 [| h3 [| h4 rest2]]]]; try discriminate H.
      destruct (hex4 h1 h2 h3 h4); [| discriminate H].
      destruct (parse_string_chars rest2) as [[str' r'] |] eqn:E;
        [| discriminate H].
      cbn [cons_unit] in H. injection H as _ <-.
      cbn [List.length] in En.
      assert (List.length r' < List.length rest2)%nat
        by (eapply (IH (List.length rest2)); [lia | reflexivity | exact E]).
      lia.
    + destruct (simple_escape e); [| discriminate H].
      destruct (parse_string_chars rest1) as [[str' r'] |] eqn:E;
        [| discriminate H].
      cbn [cons_unit] in H. injection H as _ <-.
      cbn [List.length] in En.
      assert (List.length r' < List.length rest1)%nat
        by (eapply (IH (List.length rest1)); [lia | reflexivity | exact E]).
      lia.
  - destruct (c <? 32); [discriminate H |].
    destruct (parse_string_chars rest) as [[str' r'] |] eqn:E;
      [| discriminate H].
    cbn [cons_unit] in H. injection H as _ <-.
    assert (List.length r' < List.length rest)%nat
      by (eapply (IH (List.length rest)); [lia | reflexivity | exact E]).
    lia.
Qed.

Lemma length_strip_prefix (p s r : jsstring) :
  strip_prefix p s = Some r -> (List.length r + List.length p = List.length s)%nat.
Proof.
  revert s. induction p as [| a p IH]; intros s H.
  - cbn in H. injection H as <-. cbn. lia.
  - destruct s as [| b s]; [discriminate H |]. cbn [strip_prefix] in H.
    destruct (a =? b); [| discriminate H].
    apply IH in H. cbn [List.length]. lia.
Qed.

Lemma length_take_digits (s : jsstring) :
  (List.length (snd (take_digits s)) <= List.length s)%nat.
Proof.
  induction s as [| c s IH]; cbn [take_digits]; [cbn; lia |].
  destruct (is_digit c); [| cbn; lia].
  destruct (take_digits s) as [ds r]. cbn [snd List.length] in *. lia.
Qed.

Lemma length_parse_number (s lexeme r : jsstring) :
  parse_number s = Some (lexeme, r) -> (List.length r < List.length s)%nat.
Proof.
  unfold parse_number. intros H.
  set (p := match s with
            | [] => ([], s)
            | c :: rest => if c =? 45 then ([c], rest) else ([], s)
            end) in H.
  assert (Hp : (List.length (snd p) <= List.length s)%nat).
  { subst p. destruct s as [| c rest]; [cbn; lia |].
    destruct (c =? 45); cbn; lia. }
  destruct p as [sign s1]. cbn [snd] in Hp.
  destruct (parse_int_part s1) as [[i s2] |] eqn:Ei; [| discriminate H].
  assert (H2 : (List.length s2 < List.length s1)%nat).
  { unfold parse_int_part in Ei. destruct s1 as [| c rest]; [discriminate Ei |].
    destruct (c =? 48).
    - injection Ei as _ <-. cbn. lia.
    - destruct (is_digit c); [| discriminate Ei].
      pose proof (length_take_digits rest) as L.
      destruct (take_digits rest) as [ds r']. injection Ei as _ <-.
      cbn [snd List.length] in *. lia. }
  destruct (parse_fraction s2) as [[f s3] |] eqn:Ef; [| discriminate H].
  assert (H3 : (List.length s3 <= List.length s2)%nat).
  { unfold parse_fraction in Ef. destruct s2 as [| c rest].
    - injection Ef as _ <-. cbn. lia.
    - destruct (c =? 46).
      + pose proof (length_take_digits rest) as L.
        destruct (take_digits rest) as [[| d ds] r']; [discriminate Ef |].
        injection Ef as _ <-. cbn [snd List.length] in *. lia.
      + injection Ef as _ <-. lia. }
  destruct (parse_exponent s3) as [[e s4] |] eqn:Ee; [| discriminate H].
  assert (H4 : (List.length s4 <= List.length s3)%nat).
  { unfold parse_exponent in Ee. destruct s3 as [| c rest].
    - injection Ee as _ <-. cbn. lia.
    - destruct ((c =? 101) || (c =? 69)).
      + set (q := match rest with
                  | [] => ([], rest)
                  | g :: rest' =>
                      if (g =? 43) || (g =? 45) then ([g], rest') else ([], rest)
                  end) in Ee.
        assert (Hq : (List.length (snd q) <= List.length rest)%nat).
        { subst q. destruct rest as [| g rest']; [cbn; lia |].
          destruct ((g =? 43) || (g =? 45)); cbn; lia. }
        destruct q as [sg rest1]. cbn [snd] in Hq.
        pose proof (length_take_digits rest1) as L.
        destruct (take_digits rest1) as [[| d ds] r']; [discriminate Ee |].
        injection Ee as _ <-. cbn [snd List.length] in *. lia.
      + injection Ee as _ <-. lia. }
  injection H as _ <-. lia.
Qed.


Lemma fuel_enough (fuel : nat) :
  (forall s v r,
      parse_value fuel s = Some (v, r) ->
      (List.length r < List.length s)%nat
      /\ forall fuel',
           (2 * (List.length s - List.length r) - 1 <= fuel')%nat ->
           parse_value fuel' s = Some (v, r))
  /\ (forall s acc v r,
        parse_elements fuel s acc = Some (v, r) ->
        (List.length r < List.length s)%nat
        /\ forall fuel',
             (2 * (List.length s - List.length r) <= fuel')%nat ->
             parse_elements fuel' s acc = Some (v, r))
  /\ (forall s acc v r,
        parse_members fuel s acc = Some (v, r) ->
        (List.length r < List.length s)%nat
        /\ forall fuel',
             (2 * (List.length s - List.length r) <= fuel')%nat ->
             parse_members fuel' s acc = Some (v, r)).
Proof.
  induction fuel as [| fuel [IHv [IHe IHm]]].
  { repeat split; intros; discriminate. }
  split; [| split].
  - (* a value *)
    intros s v r H. rewrite parse_value_eq in H.
    pose proof (length_skip_ws s) as Ls.
    destruct (skip_ws s) as [| c rest] eqn:Es; [discriminate H |].
    cbn [List.length] in Ls.
    destruct (c =? 123) eqn:E1.
    { pose proof (length_skip_ws rest) as Lr.
      destruct (skip_ws rest) as [| c' rest'] eqn:Er; [discriminate H |].
      cbn [List.length] in Lr.
      destruct (c' =? 125) eqn:E2.
      - injection H as <- <-. split; [lia |].
        intros f' Hf. more_fuel f'.
        rewrite parse_value_eq, Es, E1, Er, E2. reflexivity.
      - apply IHm in H. destruct H as [L F]. cbn [List.length] in L.
        split; [lia |].
        intros f' Hf. more_fuel f'.
        rewrite parse_value_eq, Es, E1, Er, E2. apply F.
        cbn [List.length]. lia. }
    destruct (c =? 91) eqn:E3.
    { pose proof (length_skip_ws rest) as Lr.
      destruct (skip_ws rest) as [| c' rest'] eqn:Er; [discriminate H |].
      cbn [List.length] in Lr.
      destruct (c' =? 93) eqn:E2.
      - injection H as <- <-. split; [lia |].
        intros f' Hf. more_fuel f'.
        rewrite parse_value_eq, Es, E1, E3, Er, E2. reflexivity.
      - apply IHe in H. destruct H as [L F]. cbn [List.length] in L.
        split; [lia |].
        intros f' Hf. more_fuel f'.
        rewrite parse_value_eq, Es, E1, E3, Er, E2. apply F.
        cbn [List.length]. lia. }
    assert (L : (List.length r < List.length s)%nat).
    { destruct (c =? 34).
      - destruct (parse_string_chars rest) as [[str r'] |] eqn:E;
          [| discriminate H].
        injection H as _ <-. apply length_parse_string_chars in E. lia.
      - destruct (strip_prefix (js "true") (c :: rest)) as [r' |] eqn:Et.
        { injection H as _ <-. apply length_strip_prefix in Et.
          cbn [List.length js List.map list_ascii_of_string] in Et. lia. }
        destruct (strip_prefix (js "false") (c :: rest)) as [r' |] eqn:Ef.
        { injection H as _ <-. apply length_strip_prefix in Ef.
          cbn [List.length js List.map list_ascii_of_string] in Ef. lia. }
        destruct (strip_prefix (js "null") (c :: rest)) as [r' |] eqn:En.
        { injection H as _ <-. apply length_strip_prefix in En.
          cbn [List.length js List.map list_ascii_of_string] in En. lia. }
        destruct (parse_number (c :: rest)) as [[lexeme r'] |] eqn:Ep;
          [| discriminate H].
        injection H as _ <-. apply length_parse_number in Ep.
        cbn [List.length] in Ep. lia. }
    split; [exact L |].
    intros f' Hf. more_fuel f'.
    rewrite parse_value_eq, Es, E1, E3. exact H.
  - (* the elements of an array *)
    intros s acc v r H. rewrite parse_elements_eq in H.
    destruct (parse_value fuel s) as [[v1 r1] |] eqn:Ev; [| discriminate H].
    apply IHv in Ev. destruct Ev as [L1 F1].
    pose proof (length_skip_ws r1) as Lr.
    destruct (skip_ws r1) as [| c rest] eqn:Er; [discriminate H |].
    cbn [List.length] in Lr.
    destruct (c =? 44) eqn:E1.
    + apply IHe in H. destruct H as [L F]. split; [lia |].
      intros f' Hf. more_fuel f'.
      rewrite parse_elements_eq, F1 by lia. rewrite Er, E1. apply F. lia.
    + destruct (c =? 93) eqn:E2; [| discriminate H].
      injection H as <- <-. split; [lia |].
      intros f' Hf. more_fuel f'.
      rewrite parse_elements_eq, F1 by lia. rewrite Er, E1, E2. reflexivity.
  - (* the members of an object *)
    intros s acc v r H. rewrite parse_members_eq in H.
    pose proof (length_skip_ws s) as Ls.
    destruct (skip_ws s) as [| q r0] eqn:Es; [discriminate H |].
    cbn [List.length] in Ls.
    destruct (q =? 34) eqn:Eq; [| discriminate H].
    destruct (parse_string_chars r0) as [[k r1] |] eqn:Ek; [| discriminate H].
    pose proof (length_parse_string_chars _ Ek) as Lk.
    pose proof (length_skip_ws r1) as L1.
    destruct (skip_ws r1) as [| colon r2] eqn:E1; [discriminate H |].
    cbn [List.length] in L1.
    destruct (colon =? 58) eqn:Ec; [| discriminate H].
    destruct (parse_value fuel r2) as [[v3 r3] |] eqn:Ev; [| discriminate H].
    apply IHv in Ev. destruct Ev as [L3 F3].
    pose proof (length_skip_ws r3) as Lr.
    destruct (skip_ws r3) as [| c rest] eqn:Er; [discriminate H |].
    cbn [List.length] in Lr.
    destruct (c =? 44) eqn:E4.
    + apply IHm in H. destruct H as [L F]. split; [lia |].
      intros f' Hf. more_fuel f'.
      rewrite parse_members_eq, Es, Eq, Ek, E1, Ec, F3 by lia.
      rewrite Er, E4. apply F. lia.
    + destruct (c =? 125) eqn:E5; [| discriminate H].
      injection H as <- <-. split; [lia |].
      intros f' Hf. more_fuel f'.
      rewrite parse_members_eq, Es, Eq, Ek, E1, Ec, F3 by lia.
      rewrite Er, E4, E5. reflexivity.
Qed.

(** The fuel [parse] gives is enough: a text that some amount of fuel
    parses as one value followed by white space only is parsed by [parse],
    with the same value. *)
Lemma parse_fuel_enough (fuel : nat) (s : jsstring) (v : json) (r : jsstring) :
  parse_value fuel s = Some (v, r) -> skip_ws r = [] -> JSON.parse s = Some v.
Proof.
  intros H Hr. destruct (fuel_enough fuel) as [Hv _].
  destruct (Hv s v r H) as [L F]. unfold JSON.parse.
  rewrite F by lia. rewrite Hr. reflexivity.
Qed.

(** So a text [parse] rejects is rejected for every amount of fuel. *)
Lemma parse_rejects_for_every_fuel (s : jsstring) :
  JSON.parse s = None ->
  forall fuel v r, parse_value fuel s = Some (v, r) -> skip_ws r <> [].
Proof.
  intros H fuel v r Hv Hr.
  rewrite (@parse_fuel_enough fuel s v r Hv Hr) in H. discriminate H.
Qed.

End Fuel.

(** *** Examples *)

Section JsonExamples.
Open Scope N_scope.

(** What is written for a task whose text holds a double quote, a
    backslash, a line feed and a lone surrogate. *)
Example stringify_example :
  JSON.stringify
    [ {| id := js "17"; text := [97; 34; 92; 10; 55357]; completed := true |} ]
  = js "[{" ++ [34] ++ js "id" ++ [34] ++ js ":" ++ [34] ++ js "17" ++ [34]
    ++ js "," ++ [34] ++ js "text" ++ [34] ++ js ":"
    ++ [34] ++ [97; 92; 34; 92; 92; 92; 110; 92; 117; 100; 56; 51; 100] ++ [34]
    ++ js "," ++ [34] ++ js "completed" ++ [34] ++ js ":true}]".
Proof. reflexivity. Qed.

(** Texts [JSON.parse] accepts, with white space, numbers and nesting. *)
Example parse_accepts :
  JSON.parse (js " [ 1 , -2.5e+3 , true , null , [ ] , { } ] ")
  = Some (JArr [JNum (js "1"); JNum (js "-2.5e+3"); JBool true; JNull;
                JArr []; JObj []])
  /\ JSON.parse (js "[[[[]]]]") = Some (JArr [JArr [JArr [JArr []]]]).
Proof. split; reflexivity. Qed.

(** Texts on which [JSON.parse] throws. *)
Example parse_rejects :
  JSON.parse (js "") = None
  /\ JSON.parse (js "[{") = None
  /\ JSON.parse (js "[1,]") = None
  /\ JSON.parse (js "01") = None
  /\ JSON.parse (js "[] x") = None
  /\ JSON.parse (js "{id:1}") = None.
Proof. repeat split. Qed.

End JsonExamples.

(* ================================================================== *)
(** ** Loading and saving *)

Section Loading.

(** There is a screen with the two known facts, and one that renders
    the one-row list [[{}]] (a row with no key and no text). *)
Lemma Screen_exists : exists sc : Screen, renders sc (JArr [JObj []]) = true.
Proof.
  assert (L1 : forall l : list Task,
             match TaskList_value l with
             | JArr (JNull :: _) => false
             | _ => true
             end = true)
    by (intros [| t l]; reflexivity).
  exists {| renders := fun v => match v with
                                | JArr (JNull :: _) => false
                                | _ => true
                                end;
            renders_TaskList := L1;
            renders_null_row := fun rest => eq_refl |}.
  reflexivity.
Qed.

(** C2, as the code has it: when the read fails, or the stored value is
    absent, the empty string or a text that is not JSON, [loadTasks]
    leaves the task list as it was (empty at start-up) with the screen
    up, on every screen and root: no error reaches the caller.  The
    failed read and the text that is not JSON are logged. *)
Theorem load_failure_keeps_the_list
  (sc : Screen) (root : root_kind) (current : json) :
  loadTasks sc root GetRejected current
  = Shown current [js "Failed to load tasks"]
  /\ loadTasks sc root (GetResolved None) current = Shown current []
  /\ loadTasks sc root (GetResolved (Some [])) current = Shown current []
  /\ (forall savedTasks,
        JSON.parse savedTasks = None ->
        exists log,
          loadTasks sc root (GetResolved (Some savedTasks)) current
          = Shown current log).
Proof.
  repeat split; try reflexivity.
  intros savedTasks H. unfold loadTasks. rewrite H.
  destruct (truthy savedTasks); eexists; reflexivity.
Qed.

(** C2, as stated, fails: the stored text [[{}]] is JSON but no task
    list, and [loadTasks] hands it to [setTasks].  On no screen and no
    root is the outcome the empty list; on a screen that renders the
    value (there is one), the list shown has one row. *)
Lemma incompatible_value_is_installed :
  let savedTasks := js "[{}]" in
  (forall l, JSON.parse savedTasks <> Some (TaskList_value l))
  /\ JSON.parse savedTasks = Some (JArr [JObj []])
  /\ (forall sc root log,
        loadTasks sc root (GetResolved (Some savedTasks)) (TaskList_value [])
        <> Shown (TaskList_value []) log)
  /\ (forall sc root,
        renders sc (JArr [JObj []]) = true ->
        loadTasks sc root (GetResolved (Some savedTasks)) (TaskList_value [])
        = Shown (JArr [JObj []]) [])
  /\ (exists sc : Screen, renders sc (JArr [JObj []]) = true).
Proof.
  cbv zeta.
  assert (P : JSON.parse (js "[{}]") = Some (JArr [JObj []])) by reflexivity.
  split; [| split; [exact P | split; [| split]]].
  - intros l H. rewrite P in H.
    destruct l as [| t [| t' l]]; discriminate H.
  - intros sc root log. unfold loadTasks.
    change (truthy (js "[{}]")) with true. cbv iota. rewrite P.
    destruct (renders sc (JArr [JObj []])); [discriminate |].
    destruct root; discriminate.
  - intros sc root H. unfold loadTasks.
    change (truthy (js "[{}]")) with true. cbv iota. rewrite P, H.
    reflexivity.
  - exact Screen_exists.
Qed.

End Loading.

Section RoundTrip.

Lemma Task_value_inj (t u : Task) : Task_value t = Task_value u -> t = u.
Proof.
  destruct t as [i x b], u as [i' x' b']. unfold Task_value.
  cbn [id text completed]. intros H. injection H as -> -> ->. reflexivity.
Qed.

Lemma TaskList_value_inj (l m : list Task) :
  TaskList_value l = TaskList_value m -> l = m.
Proof.
  unfold TaskList_value. intros H. injection H as H. revert m H.
  induction l as [| t l IH]; intros [| u m] H; try discriminate H.
  - reflexivity.
  - cbn [List.map] in H.
    assert (Ht : Task_value t = Task_value u) by congruence.
    assert (Hl : List.map Task_value l = List.map Task_value m) by congruence.
    f_equal; [now apply Task_value_inj | now apply IH].
Qed.

Lemma truthy_stringify (l : list Task) : truthy (JSON.stringify l) = true.
Proof. reflexivity. Qed.

(** Loading the text of a task list shows that list, on every screen and
    root: the text parses back to the list, and a list of tasks renders. *)
Lemma loadTasks_stringify (sc : Screen) (root : root_kind) (l : list Task)
  (current : json) :
  loadTasks sc root (GetResolved (Some (JSON.stringify l))) current
  = Shown (TaskList_value l) [].
Proof.
  unfold loadTasks.
  rewrite truthy_stringify, parse_stringify, renders_TaskList. reflexivity.
Qed.

(** C5: the text [JSON.stringify] writes for a task list parses back to
    that list: the same tasks (ids, texts, flags) in the same order; and
    [loadTasks] after a [saveTasks] that went through installs it. *)
Theorem stringify_parse_roundtrip (l : list Task) :
  JSON.parse (JSON.stringify l) = Some (TaskList_value l)
  /\ (forall m, JSON.parse (JSON.stringify l) = Some (TaskList_value m) -> m = l)
  /\ (forall sc root slot current,
        loadTasks sc root
          (GetResolved (fst (saveTasks l SetResolved slot))) current
        = Shown (TaskList_value l) []).
Proof.
  repeat split.
  - apply parse_stringify.
  - intros m H. rewrite parse_stringify in H.
    apply TaskList_value_inj. congruence.
  - intros sc root slot current. cbn [saveTasks fst].
    apply loadTasks_stringify.
Qed.

End RoundTrip.

(* ================================================================== *)
(** ** The handlers *)

Section Handlers.

Lemma edit_target_of_id (taskId : jsstring) (s : AppState) :
  taskId <> [] -> taskBeingEdited s = Some taskId -> edit_target s = Some taskId.
Proof.
  intros Hne E. unfold edit_target. rewrite E.
  destruct taskId; [contradiction | reflexivity].
Qed.

Lemma startEditingTask_present (x : Task) (s : AppState) :
  In x (tasks s) ->
  exists t, In t (tasks s) /\ id t = id x
            /\ startEditingTask (id x) s
               = {| task := text t; tasks := tasks s;
                    taskBeingEdited := Some (id x) |}.
Proof.
  intros Hin. unfold startEditingTask.
  destruct (List.find _ (tasks s)) as [t |] eqn:F.
  - apply find_some in F. destruct F as [Ht Hid].
    exists t. split; [assumption |]. split; [| reflexivity].
    destruct (str_eq_dec (id t) (id x)); [assumption | discriminate].
  - destruct (@find_present (id x) (tasks s) x Hin eq_refl) as [t [F' _]].
    rewrite F in F'. discriminate.
Qed.

(** C3: with an input whose trim is empty, the handler changes nothing
    and saves nothing, whether or not an edit is in progress; so [add]
    leaves the task list as it is, and so does confirming an edit. *)
Theorem blank_input_is_ignored (now : Z) (input : jsstring) (s : AppState) :
  trim input = [] ->
  addOrUpdateTask now (setTask input s) = (setTask input s, None)
  /\ tasks (run (add now input) s) = tasks s
  /\ (forall taskId,
        tasks (run (beginEdit taskId ++ add now input) s) = tasks s).
Proof.
  intros H.
  assert (E : forall s', addOrUpdateTask now (setTask input s') = (setTask input s', None)).
  { intros s'. unfold addOrUpdateTask. cbn [setTask task]. rewrite H. reflexivity. }
  repeat split.
  - apply E.
  - cbn [add run fold_left step]. rewrite E. reflexivity.
  - intros taskId. cbn [beginEdit add app run fold_left step].
    rewrite E. cbn [fst setTask tasks].
    unfold startEditingTask. destruct (List.find _ (tasks s)); reflexivity.
Qed.

Lemma blank_input_is_ignored_witness :
  let s := {| task := []; taskBeingEdited := None;
              tasks := [ {| id := js "17"; text := js "buy milk";
                            completed := false |} ] |} in
  addOrUpdateTask 18 (setTask (js "   ") s) = (setTask (js "   ") s, None)
  /\ tasks (run (add 18 (js "   ")) s) = tasks s
  /\ (forall taskId,
        tasks (run (beginEdit taskId ++ add 18 (js "   ")) s) = tasks s).
Proof.
  cbv zeta. apply blank_input_is_ignored. reflexivity.
Defined.

(** Where the edit goes through: for a task [x] of the list whose id is
    not the empty string, [beginEdit] of [x] and then [add] of a text
    whose trim is not empty replace in place the text of every task with
    that id, keep every other task and the length, empty the input field
    and clear the edit target. *)
Theorem edit_then_add_updates_in_place
  (now : Z) (input : jsstring) (x : Task) (s : AppState) :
  In x (tasks s) ->
  id x <> [] ->
  trim input <> [] ->
  let s' := run (beginEdit (id x) ++ add now input) s in
  List.length (tasks s') = List.length (tasks s)
  /\ (forall i t,
        nth_error (tasks s) i = Some t ->
        nth_error (tasks s') i
        = Some (if str_eq_dec (id t) (id x)
                then {| id := id t; text := input; completed := completed t |}
                else t))
  /\ In {| id := id x; text := input; completed := completed x |} (tasks s')
  /\ taskBeingEdited s' = None
  /\ task s' = [].
Proof.
  intros Hin Hid Hinput s'.
  destruct (@startEditingTask_present x s Hin) as [t [_ [_ E]]].
  assert (Es' : s' = {| task := [];
                        tasks := updatedTasks_edit (id x) input (tasks s);
                        taskBeingEdited := None |}).
  { subst s'. cbn [beginEdit add app run fold_left step]. rewrite E.
    unfold addOrUpdateTask. cbn [setTask task tasks taskBeingEdited].
    apply truthy_true in Hinput. rewrite Hinput.
    rewrite (@edit_target_of_id (id x)); [reflexivity | assumption | reflexivity]. }
  rewrite Es'. cbn [tasks taskBeingEdited task]. repeat split.
  - unfold updatedTasks_edit. apply length_map.
  - intros i u Hu. now apply edit_nth.
  - unfold updatedTasks_edit. apply in_map_iff. exists x. split; [| assumption].
    destruct (str_eq_dec (id x) (id x)); [reflexivity | contradiction].
Qed.

Lemma edit_then_add_updates_in_place_witness :
  let x := {| id := js "17"; text := js "buy milk"; completed := true |} in
  let s := {| task := []; tasks := [x]; taskBeingEdited := None |} in
  let s' := run (beginEdit (id x) ++ add 18 (js "buy bread")) s in
  List.length (tasks s') = List.length (tasks s)
  /\ (forall i t,
        nth_error (tasks s) i = Some t ->
        nth_error (tasks s') i
        = Some (if str_eq_dec (id t) (id x)
                then {| id := id t; text := js "buy bread";
                        completed := completed t |}
                else t))
  /\ In {| id := id x; text := js "buy bread"; completed := completed x |}
        (tasks s')
  /\ taskBeingEdited s' = None
  /\ task s' = [].
Proof.
  cbv zeta.
  apply (@edit_then_add_updates_in_place 18 (js "buy bread")
           {| id := js "17"; text := js "buy milk"; completed := true |}).
  - cbn. left. reflexivity.
  - cbn. discriminate.
  - vm_compute. discriminate.
Defined.

(** C4 at the input on which the code misses it.  The test of line 50,
    [if (taskBeingEdited)], is meant to ask whether an edit is in
    progress, but it is a truthiness test and the edit target [""] is
    falsy.  A stored list holding a task with the empty id is a list of
    tasks: [loadTasks] shows it, on every screen and root.  On it,
    [beginEdit] of that task and [add] of "buy bread" append a task
    instead of updating: the text of the task stays, the list grows, and
    the edit target is not cleared. *)
Lemma edit_of_empty_id_appends :
  let x := {| id := []; text := js "buy milk"; completed := false |} in
  let s := {| task := []; tasks := [x]; taskBeingEdited := None |} in
  let s' := run (beginEdit (id x) ++ add 18 (js "buy bread")) s in
  (forall sc root,
     loadTasks sc root (GetResolved (Some (JSON.stringify [x])))
               (TaskList_value [])
     = Shown (TaskList_value (tasks s)) [])
  /\ In x (tasks s)
  /\ trim (js "buy bread") <> []
  /\ tasks s'
     = [ x; {| id := toString 18; text := js "buy bread"; completed := false |} ]
  /\ List.length (tasks s') <> List.length (tasks s)
  /\ taskBeingEdited s' = Some [].
Proof.
  cbv zeta. split; [intros sc root; apply loadTasks_stringify |].
  repeat split.
  - left. reflexivity.
  - vm_compute. discriminate.
  - cbn. discriminate.
Qed.

(** C6: with no edit in progress and an input whose trim is not empty,
    the handler appends one task with the input as text, not completed,
    after the tasks already there, and hands the new list to [saveTasks];
    from the empty list, [add] of "buy milk" gives the one-task list. *)
Theorem add_appends_one_task (now : Z) (s : AppState) :
  edit_target s = None ->
  trim (task s) <> [] ->
  let newTask := {| id := toString now; text := task s; completed := false |} in
  tasks (fst (addOrUpdateTask now s)) = tasks s ++ [newTask]
  /\ snd (addOrUpdateTask now s) = Some (tasks s ++ [newTask])
  /\ (forall i t,
        nth_error (tasks s) i = Some t ->
        nth_error (tasks (fst (addOrUpdateTask now s))) i = Some t)
  /\ List.length (tasks (fst (addOrUpdateTask now s)))
     = S (List.length (tasks s)).
Proof.
  intros He Ht newTask. apply truthy_true in Ht.
  unfold addOrUpdateTask. rewrite Ht, He. cbn [fst snd tasks].
  unfold updatedTasks_add. fold newTask.
  split; [reflexivity |]. split; [reflexivity |]. split.
  - intros i t H. rewrite nth_error_app1; [assumption |].
    apply nth_error_Some. congruence.
  - rewrite length_app. cbn [List.length]. lia.
Qed.

Lemma add_appends_one_task_witness :
  let s := setTask (js "buy milk") initial in
  let newTask :=
    {| id := toString 1700000000000; text := js "buy milk"; completed := false |} in
  tasks (fst (addOrUpdateTask 1700000000000 s)) = tasks s ++ [newTask]
  /\ snd (addOrUpdateTask 1700000000000 s) = Some (tasks s ++ [newTask])
  /\ (forall i t,
        nth_error (tasks s) i = Some t ->
        nth_error (tasks (fst (addOrUpdateTask 1700000000000 s))) i = Some t)
  /\ List.length (tasks (fst (addOrUpdateTask 1700000000000 s)))
     = S (List.length (tasks s)).
Proof.
  cbv zeta.
  apply (@add_appends_one_task 1700000000000 (setTask (js "buy milk") initial)).
  - reflexivity.
  - vm_compute. discriminate.
Defined.

(** Scenario A of the specification, by evaluation. *)
Example scenario_A (now : Z) :
  tasks (run (add now (js "buy milk")) initial)
  = [ {| id := toString now; text := js "buy milk"; completed := false |} ].
Proof. reflexivity. Qed.

(** C7: the lists computed by the edit branch, by [toggleTaskCompletion]
    and by [deleteTask].  The first two keep the length, the ids in their
    order and every task whose id is not the target; the third keeps
    exactly the tasks whose id is not the target, in their order; each of
    the three returns the list itself when no task has the target id. *)
Theorem frame_of_update_toggle_delete
  (target input : jsstring) (s : AppState) :
  let l := tasks s in
  let edited := updatedTasks_edit target input l in
  let toggled := tasks (fst (toggleTaskCompletion target s)) in
  let deleted := tasks (fst (deleteTask target s)) in
  (List.length edited = List.length l
   /\ List.map id edited = List.map id l
   /\ (forall i t, nth_error l i = Some t -> id t <> target ->
                   nth_error edited i = Some t))
  /\ (List.length toggled = List.length l
      /\ List.map id toggled = List.map id l
      /\ (forall i t, nth_error l i = Some t -> id t <> target ->
                      nth_error toggled i = Some t))
  /\ ((forall t, In t deleted <-> In t l /\ id t <> target)
      /\ (forall l1 t l2,
            l = l1 ++ t :: l2 ->
            deleted
            = updatedTasks_delete target l1
              ++ (if str_eq_dec (id t) target then [] else [t])
              ++ updatedTasks_delete target l2))
  /\ ((forall t, In t l -> id t <> target) ->
      edited = l /\ toggled = l /\ deleted = l).
Proof.
  cbv zeta. cbn [toggleTaskCompletion deleteTask fst tasks].
  split; [| split; [| split]].
  - split; [apply length_map |]. split; [apply edit_ids |].
    intros i t H N. rewrite (@edit_nth target input _ _ _ H).
    destruct (str_eq_dec (id t) target); [contradiction | reflexivity].
  - split; [apply length_map |]. split; [apply toggle_ids |].
    intros i t H N. rewrite (@toggle_nth target _ _ _ H).
    destruct (str_eq_dec (id t) target); [contradiction | reflexivity].
  - split; [intros t; apply delete_In |].
    intros l1 t l2 E. rewrite E, delete_app. f_equal.
    cbn [updatedTasks_delete filter].
    destruct (str_eq_dec (id t) target); reflexivity.
  - intros H. split; [now apply edit_absent |].
    split; [now apply toggle_absent | now apply delete_absent].
Qed.

(** The edit branch of [addOrUpdateTask] installs and saves the list of C7. *)
Lemma addOrUpdateTask_edit (now : Z) (target : jsstring) (s : AppState) :
  edit_target s = Some target ->
  trim (task s) <> [] ->
  addOrUpdateTask now s
  = ({| task := []; tasks := updatedTasks_edit target (task s) (tasks s);
        taskBeingEdited := None |},
     Some (updatedTasks_edit target (task s) (tasks s))).
Proof.
  intros He Ht. apply truthy_true in Ht.
  unfold addOrUpdateTask. rewrite Ht, He. reflexivity.
Qed.

(** Scenario C of the specification. *)
Example scenario_C (x y : Task) (s : AppState) :
  tasks s = [x; y] -> id y <> id x ->
  tasks (run (delete (id x)) s) = [y].
Proof.
  intros E N. cbn [delete run fold_left step deleteTask fst tasks].
  rewrite E. cbn [updatedTasks_delete filter].
  destruct (str_eq_dec (id x) (id x)); [| contradiction].
  destruct (str_eq_dec (id y) (id x)); [contradiction | reflexivity].
Qed.

(** C8: toggling the same id twice gives back the state, hence the list
    and every flag; one toggle negates the flag of each task with the id. *)
Theorem toggle_twice_restores (taskId : jsstring) (s : AppState) :
  run (toggleCompletion taskId ++ toggleCompletion taskId) s = s
  /\ tasks (fst (toggleTaskCompletion taskId
                   (fst (toggleTaskCompletion taskId s)))) = tasks s
  /\ (forall i t,
        nth_error (tasks s) i = Some t -> id t = taskId ->
        exists t',
          nth_error (tasks (fst (toggleTaskCompletion taskId s))) i = Some t'
          /\ completed t' = negb (completed t)
          /\ id t' = id t /\ text t' = text t).
Proof.
  assert (E : tasks (fst (toggleTaskCompletion taskId
                            (fst (toggleTaskCompletion taskId s)))) = tasks s).
  { cbn [toggleTaskCompletion fst tasks]. apply toggle_toggle. }
  split; [| split].
  - cbn [toggleCompletion app run fold_left step].
    cbn [toggleTaskCompletion fst tasks task taskBeingEdited].
    rewrite toggle_toggle. destruct s; reflexivity.
  - exact E.
  - intros i t H Hid. cbn [toggleTaskCompletion fst tasks].
    rewrite (@toggle_nth taskId _ _ _ H).
    destruct (str_eq_dec (id t) taskId); [| contradiction].
    eexists. split; [reflexivity |]. cbn [id text completed]. auto.
Qed.

(** Scenario D of the specification. *)
Example scenario_D (x : Task) (s : AppState) :
  tasks s = [x] -> completed x = false ->
  List.map completed (tasks (run (toggleCompletion (id x)) s)) = [true].
Proof.
  intros E C. cbn [toggleCompletion run fold_left step toggleTaskCompletion fst tasks].
  rewrite E. cbn [updatedTasks_toggle List.map].
  destruct (str_eq_dec (id x) (id x)); [| contradiction].
  cbn [completed]. rewrite C. reflexivity.
Qed.

(** C9: [startEditingTask] on an id that no task has changes nothing:
    the input field, the task list and the edit target stay. *)
Theorem startEditingTask_absent (taskId : jsstring) (s : AppState) :
  (forall t, In t (tasks s) -> id t <> taskId) ->
  startEditingTask taskId s = s /\ run (beginEdit taskId) s = s.
Proof.
  intros H.
  assert (E : startEditingTask taskId s = s).
  { unfold startEditingTask. now rewrite find_absent. }
  split; [exact E |]. cbn [beginEdit run fold_left step]. exact E.
Qed.

Lemma startEditingTask_absent_witness :
  let s := {| task := js "draft"; taskBeingEdited := Some (js "17");
              tasks := [ {| id := js "17"; text := js "buy milk";
                            completed := false |} ] |} in
  startEditingTask (js "18") s = s /\ run (beginEdit (js "18")) s = s.
Proof.
  cbv zeta. apply startEditingTask_absent.
  intros t [<- | []]. cbn. discriminate.
Defined.

(** C10: the text stored is the input as typed, untrimmed: the task that
    [add] appends has it, and so has every task the edit branch updates. *)
Theorem text_is_stored_verbatim (now : Z) (input : jsstring) (s : AppState) :
  trim input <> [] ->
  let s' := fst (addOrUpdateTask now (setTask input s)) in
  (edit_target s = None ->
   exists t, tasks s' = tasks s ++ [t] /\ text t = input)
  /\ (forall target,
        edit_target s = Some target ->
        forall i t,
          nth_error (tasks s) i = Some t -> id t = target ->
          exists t', nth_error (tasks s') i = Some t' /\ text t' = input).
Proof.
  intros Ht s'. apply truthy_true in Ht. subst s'.
  unfold addOrUpdateTask. cbn [setTask task tasks]. rewrite Ht.
  change (edit_target (setTask input s)) with (edit_target s).
  split.
  - intros He. 
    change (edit_target {| task := input; tasks := tasks s;
                           taskBeingEdited := taskBeingEdited s |})
      with (edit_target s).
    rewrite He. cbn [fst tasks]. eexists. split; reflexivity.
  - intros target He i t H Hid.
    change (edit_target {| task := input; tasks := tasks s;
                           taskBeingEdited := taskBeingEdited s |})
      with (edit_target s).
    rewrite He. cbn [fst tasks].
    rewrite (@edit_nth target input _ _ _ H).
    destruct (str_eq_dec (id t) target); [| contradiction].
    eexists. split; reflexivity.
Qed.

Lemma text_is_stored_verbatim_witness :
  let input := js "  buy milk  " in
  let s := {| task := []; taskBeingEdited := None;
              tasks := [ {| id := js "17"; text := js "walk";
                            completed := false |} ] |} in
  let s' := fst (addOrUpdateTask 18 (setTask input s)) in
  trim input <> input
  /\ (edit_target s = None ->
      exists t, tasks s' = tasks s ++ [t] /\ text t = input)
  /\ (forall target,
        edit_target s = Some target ->
        forall i t,
          nth_error (tasks s) i = Some t -> id t = target ->
          exists t', nth_error (tasks s') i = Some t' /\ text t' = input).
Proof.
  cbv zeta. split.
  - vm_compute. discriminate.
  - apply text_is_stored_verbatim. vm_compute. discriminate.
Defined.

End Handlers.

(* ================================================================== *)
(** * Further properties of the handlers and of the slot *)

Section MoreStrings.

(** The decimal text of a number is never the empty string. *)
Lemma toString_nonempty (n : Z) : toString n <> [].
Proof.
  intros H. change [] with (js "") in H. unfold toString in H.
  apply js_inj in H.
  pose proof (NilEmpty.isi (Z.to_int n)) as E. rewrite H in E.
  cbn in E. injection E as E.
  pose proof (DecimalZ.of_to n) as O. rewrite <- E in O. cbn in O. subst n.
  discriminate E.
Qed.

End MoreStrings.

Section Composition.

Lemma delete_delete (a : jsstring) (l : list Task) :
  updatedTasks_delete a (updatedTasks_delete a l) = updatedTasks_delete a l.
Proof.
  apply delete_absent. intros t H. apply delete_In in H. tauto.
Qed.

Lemma delete_comm (a b : jsstring) (l : list Task) :
  updatedTasks_delete a (updatedTasks_delete b l)
  = updatedTasks_delete b (updatedTasks_delete a l).
Proof.
  induction l as [| t l IH]; [reflexivity |].
  cbn [updatedTasks_delete filter].
  destruct (str_eq_dec (id t) b) as [Eb | Nb];
    destruct (str_eq_dec (id t) a) as [Ea | Na];
    cbn [filter];
    try (destruct (str_eq_dec (id t) b); [| contradiction]);
    try (destruct (str_eq_dec (id t) b); [contradiction |]);
    try (destruct (str_eq_dec (id t) a); [| contradiction]);
    try (destruct (str_eq_dec (id t) a); [contradiction |]);
    try exact IH; f_equal; exact IH.
Qed.

Lemma delete_map (d : jsstring) (f : Task -> Task) (l : list Task) :
  (forall t, id (f t) = id t) ->
  updatedTasks_delete d (List.map f l) = List.map f (updatedTasks_delete d l).
Proof.
  intros H. induction l as [| t l IH]; [reflexivity |].
  cbn [List.map updatedTasks_delete filter]. rewrite H.
  destruct (str_eq_dec (id t) d); [exact IH |].
  cbn [List.map]. f_equal. exact IH.
Qed.

(** X6: deleting an id twice is deleting it once, deletions commute, and
    after a deletion no task has the id. *)
Theorem delete_idempotent_commutative (a b : jsstring) (s : AppState) :
  tasks (run (delete a ++ delete a) s) = tasks (run (delete a) s)
  /\ tasks (run (delete a ++ delete b) s) = tasks (run (delete b ++ delete a) s)
  /\ (forall t, In t (tasks (run (delete a) s)) -> id t <> a).
Proof.
  cbn [delete app run fold_left step deleteTask fst tasks].
  split; [apply delete_delete |]. split; [apply delete_comm |].
  intros t H. apply delete_In in H. tauto.
Qed.

(** X7: a deletion removes as many tasks as have the id: all of them when
    several share it, at most one when the ids of the list are pairwise
    distinct. *)
Theorem delete_removes_every_task_with_the_id (a : jsstring) (s : AppState) :
  let l := tasks s in
  let deleted := tasks (fst (deleteTask a s)) in
  (List.length deleted + count_occ str_eq_dec (List.map id l) a
   = List.length l)%nat
  /\ (NoDup (List.map id l) -> (List.length l <= S (List.length deleted))%nat).
Proof.
  cbv zeta. cbn [deleteTask fst tasks].
  assert (E : forall l,
             (List.length (updatedTasks_delete a l)
              + count_occ str_eq_dec (List.map id l) a = List.length l)%nat).
  { induction l as [| t l IH]; [reflexivity |].
    cbn [updatedTasks_delete filter List.map].
    destruct (str_eq_dec (id t) a) as [Ea | Na].
    - rewrite count_occ_cons_eq by exact Ea.
      fold (updatedTasks_delete a l). cbn [List.length]. lia.
    - rewrite count_occ_cons_neq by exact Na.
      fold (updatedTasks_delete a l). cbn [List.length]. lia. }
  split; [apply E |].
  intros ND. pose proof (E (tasks s)) as E'.
  pose proof (proj1 (NoDup_count_occ str_eq_dec _) ND a). lia.
Qed.

Lemma edit_edit (t a b : jsstring) (l : list Task) :
  updatedTasks_edit t b (updatedTasks_edit t a l) = updatedTasks_edit t b l.
Proof.
  unfold updatedTasks_edit. rewrite map_map. apply map_ext.
  intros [i x c]. cbn [id].
  destruct (str_eq_dec i t) as [E | N]; cbn [id text completed].
  - destruct (str_eq_dec i t); [reflexivity | contradiction].
  - destruct (str_eq_dec i t); [contradiction | reflexivity].
Qed.

Lemma edit_toggle (t u a : jsstring) (l : list Task) :
  updatedTasks_edit t a (updatedTasks_toggle u l)
  = updatedTasks_toggle u (updatedTasks_edit t a l).
Proof.
  unfold updatedTasks_edit, updatedTasks_toggle. rewrite !map_map.
  apply map_ext. intros [i x c]. cbn [id].
  destruct (str_eq_dec i u); destruct (str_eq_dec i t);
    cbn [id text completed];
    repeat match goal with
           | |- context [str_eq_dec ?p ?q] => destruct (str_eq_dec p q)
           end; try contradiction; reflexivity.
Qed.

Lemma toggle_comm (t u : jsstring) (l : list Task) :
  updatedTasks_toggle t (updatedTasks_toggle u l)
  = updatedTasks_toggle u (updatedTasks_toggle t l).
Proof.
  unfold updatedTasks_toggle. rewrite !map_map.
  apply map_ext. intros [i x c]. cbn [id].
  destruct (str_eq_dec i u); destruct (str_eq_dec i t);
    cbn [id text completed];
    repeat match goal with
           | |- context [str_eq_dec ?p ?q] => destruct (str_eq_dec p q)
           end; try contradiction; reflexivity.
Qed.

(** X9: how the three list computations compose.  Of two edits of the
    same id the later text stands; an edit and a toggle commute, as do
    two toggles, whatever the ids; and a deletion commutes with both. *)
Theorem edits_toggles_deletes_compose (t u d a b : jsstring) (l : list Task) :
  updatedTasks_edit t b (updatedTasks_edit t a l) = updatedTasks_edit t b l
  /\ updatedTasks_edit t a (updatedTasks_toggle u l)
     = updatedTasks_toggle u (updatedTasks_edit t a l)
  /\ updatedTasks_toggle t (updatedTasks_toggle u l)
     = updatedTasks_toggle u (updatedTasks_toggle t l)
  /\ updatedTasks_delete d (updatedTasks_edit t a l)
     = updatedTasks_edit t a (updatedTasks_delete d l)
  /\ updatedTasks_delete d (updatedTasks_toggle u l)
     = updatedTasks_toggle u (updatedTasks_delete d l).
Proof.
  split; [apply edit_edit |]. split; [apply edit_toggle |].
  split; [apply toggle_comm |]. split.
  - unfold updatedTasks_edit. apply delete_map.
    intros x. destruct (str_eq_dec (id x) t); reflexivity.
  - unfold updatedTasks_toggle. apply delete_map.
    intros x. destruct (str_eq_dec (id x) u); reflexivity.
Qed.

End Composition.

Section Presses.

(** X1: a press of the add button does nothing at all (same state, no
    save) exactly when the input field holds white space only; with any
    other input the press calls [saveTasks], with the list it installs. *)
Theorem press_is_ignored_iff_blank (now : Z) (s : AppState) :
  (addOrUpdateTask now s = (s, None)
   <-> forallb is_white_space (task s) = true)
  /\ (snd (addOrUpdateTask now s) = None
      <-> forallb is_white_space (task s) = true)
  /\ (forallb is_white_space (task s) = false ->
      snd (addOrUpdateTask now s) = Some (tasks (fst (addOrUpdateTask now s)))
      /\ task (fst (addOrUpdateTask now s)) = []).
Proof.
  rewrite <- trim_nil_iff. unfold addOrUpdateTask.
  destruct (truthy (trim (task s))) eqn:T.
  - apply truthy_true in T.
    split; [| split].
    + split; [| contradiction]. destruct (edit_target s); discriminate.
    + split; [| contradiction]. destruct (edit_target s); discriminate.
    + intros _. destruct (edit_target s); split; reflexivity.
  - apply truthy_false in T.
    split; [tauto |]. split; [cbn [snd]; tauto |].
    intros B. apply trim_nil_iff in T. rewrite T in B. discriminate B.
Qed.

Lemma edit_target_setTask (input : jsstring) (s : AppState) :
  edit_target (setTask input s) = edit_target s.
Proof. reflexivity. Qed.



(** X3: deleting a task does not end its edit.  After [beginEdit] of a
    task (with a non-empty id), its deletion and then [add] of a non-blank
    text, nothing is appended and no task is changed: the list is the
    list after the deletion, the typed text is dropped, the edit ends. *)
Theorem confirming_the_edit_of_a_deleted_task
  (now : Z) (input : jsstring) (x : Task) (s : AppState) :
  In x (tasks s) ->
  id x <> [] ->
  trim input <> [] ->
  let s' := run (beginEdit (id x) ++ delete (id x) ++ add now input) s in
  tasks s' = tasks (run (delete (id x)) s)
  /\ (forall t, In t (tasks s') -> In t (tasks s) /\ id t <> id x)
  /\ task s' = []
  /\ taskBeingEdited s' = None.
Proof.
  intros Hin Hid Hinput s'.
  destruct (@startEditingTask_present x s Hin) as [t [_ [_ E]]].
  assert (Es' : s' = {| task := [];
                        tasks := updatedTasks_delete (id x) (tasks s);
                        taskBeingEdited := None |}).
  { subst s'. cbn [beginEdit delete add app run fold_left step]. rewrite E.
    cbn [deleteTask fst tasks task taskBeingEdited].
    unfold addOrUpdateTask. cbn [setTask task tasks taskBeingEdited].
    apply truthy_true in Hinput. rewrite Hinput.
    rewrite (@edit_target_of_id (id x)); [| assumption | reflexivity].
    cbn [fst tasks]. rewrite edit_absent; [reflexivity |].
    intros u Hu. apply delete_In in Hu. tauto. }
  rewrite Es'. cbn [tasks task taskBeingEdited].
  split; [reflexivity |]. split; [| split; reflexivity].
  intros u Hu. now apply delete_In in Hu.
Qed.

Lemma confirming_the_edit_of_a_deleted_task_witness :
  let x := {| id := js "17"; text := js "buy milk"; completed := false |} in
  let y := {| id := js "18"; text := js "walk"; completed := true |} in
  let s := {| task := []; tasks := [x; y]; taskBeingEdited := None |} in
  let s' := run (beginEdit (id x) ++ delete (id x) ++ add 19 (js "buy bread")) s in
  tasks s' = tasks (run (delete (id x)) s)
  /\ (forall t, In t (tasks s') -> In t (tasks s) /\ id t <> id x)
  /\ task s' = []
  /\ taskBeingEdited s' = None.
Proof.
  cbv zeta.
  apply (@confirming_the_edit_of_a_deleted_task 19 (js "buy bread")
           {| id := js "17"; text := js "buy milk"; completed := false |}).
  - cbn. left. reflexivity.
  - cbn. discriminate.
  - vm_compute. discriminate.
Defined.

(** X8: with no edit in progress, [add] of a non-blank text at a clock
    reading whose decimal text is the id of no task, followed by the
    deletion of the new id, gives back the list. *)
Theorem add_then_delete_restores (now : Z) (input : jsstring) (s : AppState) :
  edit_target s = None ->
  trim input <> [] ->
  (forall t, In t (tasks s) -> id t <> toString now) ->
  tasks (run (add now input ++ delete (toString now)) s) = tasks s.
Proof.
  intros He Hinput Fresh. apply truthy_true in Hinput.
  cbn [add delete app run fold_left step].
  unfold addOrUpdateTask. rewrite edit_target_setTask, He.
  cbn [setTask task tasks]. rewrite Hinput. cbn [fst deleteTask tasks].
  unfold updatedTasks_add. rewrite delete_app, delete_absent by assumption.
  cbn [updatedTasks_delete filter id].
  destruct (str_eq_dec (toString now) (toString now)); [| contradiction].
  apply app_nil_r.
Qed.

Lemma add_then_delete_restores_witness :
  let s := {| task := []; taskBeingEdited := None;
              tasks := [ {| id := toString 17; text := js "buy milk";
                            completed := false |} ] |} in
  tasks (run (add 18 (js "buy bread") ++ delete (toString 18)) s) = tasks s.
Proof.
  cbv zeta. apply add_then_delete_restores.
  - reflexivity.
  - vm_compute. discriminate.
  - intros t [<- | []]. vm_compute. discriminate.
Defined.

Lemma NoDup_ids_same_task (l : list Task) (t x : Task) :
  NoDup (List.map id l) -> In t l -> In x l -> id t = id x -> t = x.
Proof.
  induction l as [| u l IH]; intros ND Ht Hx E; [destruct Ht |].
  cbn [List.map] in ND. inversion ND as [| ? ? Hnot Hrest]; subst.
  destruct Ht as [-> | Ht]; destruct Hx as [-> | Hx].
  - reflexivity.
  - destruct Hnot. rewrite E. now apply in_map.
  - destruct Hnot. rewrite <- E. now apply in_map.
  - now apply IH.
Qed.

(** X10: [startEditingTask] never changes the task list, whatever the
    list and the id; and on a list with pairwise-distinct ids, for a
    task of the list, it puts the text of that task in the input field
    and makes its id the edit target. *)
Theorem startEditingTask_loads_the_text (s : AppState) :
  (forall taskId, tasks (startEditingTask taskId s) = tasks s)
  /\ (forall x,
        NoDup (List.map id (tasks s)) ->
        In x (tasks s) ->
        startEditingTask (id x) s
        = {| task := text x; tasks := tasks s;
             taskBeingEdited := Some (id x) |}).
Proof.
  split.
  - intros taskId. unfold startEditingTask.
    destruct (List.find _ (tasks s)); reflexivity.
  - intros x ND Hin.
    destruct (@startEditingTask_present x s Hin) as [t [Ht [Hid E]]].
    rewrite E. now rewrite (@NoDup_ids_same_task (tasks s) t x ND Ht Hin Hid).
Qed.

Lemma startEditingTask_loads_the_text_witness :
  let x := {| id := js "18"; text := js "walk"; completed := true |} in
  let s := {| task := js "draft"; taskBeingEdited := None;
              tasks := [ {| id := js "17"; text := js "buy milk";
                            completed := false |}; x ] |} in
  (forall taskId, tasks (startEditingTask taskId s) = tasks s)
  /\ startEditingTask (id x) s
     = {| task := text x; tasks := tasks s; taskBeingEdited := Some (id x) |}.
Proof.
  cbv zeta. split.
  - apply startEditingTask_loads_the_text.
  - apply (proj2 (startEditingTask_loads_the_text _)).
    + cbn. constructor.
      * intros [H | []]. discriminate H.
      * constructor; [intros [] | constructor].
    + cbn. right. left. reflexivity.
Defined.

End Presses.

Section Reachable.

Lemma clock_readings_app (evs1 evs2 : list event) :
  clock_readings (evs1 ++ evs2) = clock_readings evs1 ++ clock_readings evs2.
Proof.
  induction evs1 as [| e evs1 IH]; [reflexivity |].
  cbn [app]. rewrite (clock_readings_cons e (evs1 ++ evs2)),
    (clock_readings_cons e evs1), IH. apply app_assoc.
Qed.

Lemma step_ids_from (s : AppState) (e : event) (seen : list Z) :
  ids_from seen s ->
  (forall i, taskBeingEdited s = Some i -> exists n, i = toString n) ->
  ids_from (seen ++ clock_readings [e]) (step s e)
  /\ (forall i, taskBeingEdited (step s e) = Some i -> exists n, i = toString n).
Proof.
  intros From Target.
  assert (Weak : forall i, In i (List.map id (tasks s)) ->
                   exists n, In n (seen ++ clock_readings [e]) /\ i = toString n).
  { intros i Hi. destruct (From i Hi) as [n [Hn Ei]].
    exists n. split; [apply in_or_app; now left | assumption]. }
  destruct e as [input | now | taskId | taskId | taskId]; cbn [step].
  - split; assumption.
  - unfold addOrUpdateTask.
    destruct (truthy (trim (task s))); [| split; assumption].
    destruct (edit_target s) as [target |]; cbn [fst].
    + split; [| intros i H; discriminate H].
      unfold ids_from. cbn [tasks]. rewrite edit_ids. exact Weak.
    + split; [| exact Target].
      unfold ids_from. cbn [tasks]. rewrite add_ids.
      intros i Hi. apply in_app_or in Hi. destruct Hi as [Hi | [<- | []]].
      * now apply Weak.
      * exists now. split; [| reflexivity].
        apply in_or_app. right. now left.
  - split; [| exact Target].
    unfold ids_from. cbn [toggleTaskCompletion fst tasks].
    rewrite toggle_ids. exact Weak.
  - unfold startEditingTask.
    destruct (List.find _ (tasks s)) as [t |] eqn:F; [| split; assumption].
    split; [exact Weak |]. cbn [taskBeingEdited].
    intros i H. injection H as <-.
    apply find_some in F. destruct F as [Ht Hid].
    destruct (str_eq_dec (id t) taskId) as [<- | _]; [| discriminate Hid].
    destruct (From (id t) (in_map id _ _ Ht)) as [n [_ E]]. now exists n.
  - split; [| exact Target].
    unfold ids_from. cbn [deleteTask fst tasks].
    intros i Hi. apply Weak. now apply delete_ids_In in Hi.
Qed.

Lemma run_ids_from (evs : list event) :
  ids_from (clock_readings evs) (run evs initial)
  /\ (forall i, taskBeingEdited (run evs initial) = Some i ->
                exists n, i = toString n).
Proof.
  induction evs as [| e evs [From Target]] using rev_ind.
  - split; [intros i [] | intros i H; discriminate H].
  - rewrite run_app, clock_readings_app.
    change (run [e] (run evs initial)) with (step (run evs initial) e).
    now apply step_ids_from.
Qed.

(** X4: in every state reached from the initial one, the id of each task
    is the decimal text of the clock reading of one of the presses of the
    add button, so it is not the empty string; and the edit target, when
    set, is a non-empty string: the truthiness test of line 50 then reads
    the cell as it is. *)
Theorem reachable_ids_are_clock_texts (evs : list event) :
  let s := run evs initial in
  (forall t, In t (tasks s) ->
             exists n, In n (clock_readings evs) /\ id t = toString n)
  /\ (forall t, In t (tasks s) -> id t <> [])
  /\ edit_target s = taskBeingEdited s.
Proof.
  cbv zeta. destruct (run_ids_from evs) as [From Target].
  assert (Ids : forall t, In t (tasks (run evs initial)) ->
                  exists n, In n (clock_readings evs) /\ id t = toString n).
  { intros t Ht. apply From. now apply in_map. }
  split; [exact Ids |]. split.
  - intros t Ht. destruct (Ids t Ht) as [n [_ ->]]. apply toString_nonempty.
  - unfold edit_target.
    destruct (taskBeingEdited (run evs initial)) as [[| c r] |] eqn:E;
      try reflexivity.
    destruct (Target [] eq_refl) as [n Hn].
    symmetry in Hn. destruct (@toString_nonempty n Hn).
Qed.

Lemma step_length (s : AppState) (e : event) :
  (List.length (tasks (step s e))
   <= List.length (tasks s) + List.length (clock_readings [e]))%nat.
Proof.
  destruct e as [input | now | taskId | taskId | taskId];
    cbn [step clock_readings List.length].
  - cbn [setTask tasks]. lia.
  - unfold addOrUpdateTask.
    destruct (truthy (trim (task s))); [| cbn [fst]; lia].
    destruct (edit_target s); cbn [fst tasks].
    + unfold updatedTasks_edit. rewrite length_map. lia.
    + unfold updatedTasks_add. rewrite length_app. cbn [List.length]. lia.
  - cbn [toggleTaskCompletion fst tasks]. unfold updatedTasks_toggle.
    rewrite length_map. lia.
  - unfold startEditingTask. destruct (List.find _ (tasks s)); cbn [tasks]; lia.
  - cbn [deleteTask fst tasks]. unfold updatedTasks_delete.
    pose proof (filter_length_le
                  (fun item => if str_eq_dec (id item) taskId then false else true)
                  (tasks s)). lia.
Qed.

(** X5: the list grows only by presses of the add button: after a run,
    it is at most as much longer as the run has such presses. *)
Theorem list_grows_only_by_add (evs : list event) (s : AppState) :
  (List.length (tasks (run evs s))
   <= List.length (tasks s) + List.length (clock_readings evs))%nat.
Proof.
  revert s. induction evs as [| e evs IH]; intros s.
  - cbn. lia.
  - rewrite run_cons, (clock_readings_cons e evs), length_app.
    pose proof (IH (step s e)). pose proof (step_length s e). lia.
Qed.

End Reachable.

Section Storage.

(** X12: the text written for a task list determines the list: two lists
    are saved as the same text only when they are the same list. *)
Theorem stringify_injective (l m : list Task) :
  JSON.stringify l = JSON.stringify m <-> l = m.
Proof.
  split; [| now intros ->].
  intros H. apply TaskList_value_inj.
  pose proof (parse_stringify l) as Pl. rewrite H, parse_stringify in Pl.
  congruence.
Qed.

Lemma settle_saves_last (calls : list (list Task * setItem_result)) :
  forall slot,
    settle_saves calls slot
    = match last_resolved calls with
      | Some l => Some (JSON.stringify l)
      | None => slot
      end.
Proof.
  induction calls as [| [l r] calls IH]; intros slot; [reflexivity |].
  unfold settle_saves in *. cbn [fold_left last_resolved fst snd].
  rewrite IH. destruct (last_resolved calls); [reflexivity |].
  destruct r; reflexivity.
Qed.

(** X14: the slot is overwritten whole by each write that resolves and
    left alone by each write that is rejected: after any history of
    saves, [loadTasks] shows the list of the last save that resolved,
    and reads the slot as it was when none did. *)
Theorem load_after_saves (sc : Screen) (root : root_kind)
  (calls : list (list Task * setItem_result))
  (slot : option jsstring) (current : json) :
  loadTasks sc root (GetResolved (settle_saves calls slot)) current
  = match last_resolved calls with
    | Some l => Shown (TaskList_value l) []
    | None => loadTasks sc root (GetResolved slot) current
    end.
Proof.
  rewrite settle_saves_last. destruct (last_resolved calls) as [l |];
    [| reflexivity].
  apply loadTasks_stringify.
Qed.


End Storage.

Section Mirror.

Lemma step_handle (s : AppState) (e : event) : step s e = fst (handle s e).
Proof. destruct e; reflexivity. Qed.

(** A handler saves the list it installs; one that saves nothing leaves
    the list as it was. *)
Lemma handle_saves (s : AppState) (e : event) :
  match snd (handle s e) with
  | Some saved => saved = tasks (fst (handle s e))
  | None => tasks (fst (handle s e)) = tasks s
  end.
Proof.
  destruct e as [input | now | taskId | taskId | taskId]; cbn [handle fst snd];
    try reflexivity.
  - unfold addOrUpdateTask.
    destruct (truthy (trim (task s))); [| reflexivity].
    destruct (edit_target s); reflexivity.
  - unfold startEditingTask. destruct (List.find _ (tasks s)); reflexivity.
Qed.

Lemma settle_saves_of (evs : list event) :
  forall (s : AppState) (slot : option jsstring),
    (settle_saves (all_resolved (saves_of evs s)) slot = slot
     /\ tasks (run evs s) = tasks s)
    \/ settle_saves (all_resolved (saves_of evs s)) slot
       = Some (JSON.stringify (tasks (run evs s))).
Proof.
  induction evs as [| e evs IH]; intros s slot.
  - left. split; reflexivity.
  - rewrite run_cons, step_handle. cbn [saves_of].
    pose proof (handle_saves s e) as H.
    destruct (snd (handle s e)) as [saved |].
    + subst saved. right.
      change (settle_saves
                (all_resolved (tasks (fst (handle s e))
                               :: saves_of evs (fst (handle s e)))) slot)
        with (settle_saves (all_resolved (saves_of evs (fst (handle s e))))
                (Some (JSON.stringify (tasks (fst (handle s e)))))).
      destruct (IH (fst (handle s e))
                  (Some (JSON.stringify (tasks (fst (handle s e))))))
        as [[E1 E2] | E]; [| exact E].
      rewrite E1, E2. reflexivity.
    + destruct (IH (fst (handle s e)) slot) as [[E1 E2] | E].
      * left. split; [exact E1 | congruence].
      * right. exact E.
Qed.

(** X13: the slot mirrors the list.  When every write resolves, in the
    order of the calls: if the slot held the text of the list before a
    run, then [loadTasks] after the run shows the list the run ended
    with; and from a first start (empty list, empty slot) likewise. *)
Theorem reload_after_run_restores_the_list (sc : Screen) (root : root_kind)
  (evs : list event) (s : AppState) (current : json) :
  loadTasks sc root
    (GetResolved (settle_saves (all_resolved (saves_of evs s))
                               (Some (JSON.stringify (tasks s)))))
    current
  = Shown (TaskList_value (tasks (run evs s))) []
  /\ loadTasks sc root
       (GetResolved (settle_saves (all_resolved (saves_of evs initial)) None))
       (TaskList_value [])
     = Shown (TaskList_value (tasks (run evs initial))) [].
Proof.
  split.
  - destruct (settle_saves_of evs s (Some (JSON.stringify (tasks s))))
      as [[E1 E2] | E].
    + rewrite E1, E2. apply loadTasks_stringify.
    + rewrite E. apply loadTasks_stringify.
  - destruct (settle_saves_of evs initial None) as [[E1 E2] | E].
    + rewrite E1, E2. reflexivity.
    + rewrite E. apply loadTasks_stringify.
Qed.



End Mirror.
